(** * PostForMeBackend: the generation and publishing relay, with its rate limiter

    A shallow embedding of the Express server of [src/unnamed/part_000]
    (its last and most complete variant, the one with the rate limiter and the
    thread routes; [src/index.js] is an earlier variant that shares the
    sanitisation of generated text).

    The handlers are [async] functions: they read the clock, read and write two
    module-level variables, and suspend at every [await axios(...)].  They are
    embedded as terms of a small free monad [Prog] whose operations are exactly
    those effects.  Two interpreters give them meaning: [run_sync] executes a
    handler up to its next [await], as the event loop does, and [run] executes
    it to completion against a script of upstream outcomes. *)

From Stdlib Require Import ZArith NArith List String Ascii Bool Lia DecimalString.
Import ListNotations.
Local Open Scope string_scope.
Local Open Scope list_scope.
Local Open Scope Z_scope.

(** ** JavaScript strings *)

(** A JavaScript string is a sequence of UTF-16 code units. *)
Definition jstr : Type := list N.

(** The source file is UTF-8; its literals are decoded to code units. *)
Fixpoint utf16_of_utf8 (bs : list N) : jstr :=
  match bs with
  | [] => []
  | b0 :: r0 =>
      if (b0 <? 128)%N then b0 :: utf16_of_utf8 r0
      else if (b0 <? 224)%N then
        match r0 with
        | b1 :: r1 => ((b0 - 192) * 64 + (b1 - 128))%N :: utf16_of_utf8 r1
        | [] => []
        end
      else if (b0 <? 240)%N then
        match r0 with
        | b1 :: b2 :: r2 =>
            ((b0 - 224) * 4096 + (b1 - 128) * 64 + (b2 - 128))%N :: utf16_of_utf8 r2
        | _ => []
        end
      else
        match r0 with
        | b1 :: b2 :: b3 :: r3 =>
            let cp := ((b0 - 240) * 262144 + (b1 - 128) * 4096
                       + (b2 - 128) * 64 + (b3 - 128) - 65536)%N in
            (55296 + cp / 1024)%N :: (56320 + cp mod 1024)%N :: utf16_of_utf8 r3
        | _ => []
        end
  end.

Definition u (s : string) : jstr :=
  utf16_of_utf8 (map N_of_ascii (list_ascii_of_string s)).

(** [String(n)] for an integer [n]: its decimal numeral. *)
Definition dec (z : Z) : jstr := u (NilZero.string_of_int (Z.to_int z)).

(** [s] occurs in [t] as a contiguous substring. *)
Definition Contains (s t : jstr) : Prop := exists pre post, t = pre ++ s ++ post.

Fixpoint starts_with (s t : jstr) : bool :=
  match s, t with
  | [], _ => true
  | _ :: _, [] => false
  | a :: s', b :: t' => (a =? b)%N && starts_with s' t'
  end.

Fixpoint contains (s t : jstr) : bool :=
  starts_with s t || match t with [] => false | _ :: t' => contains s t' end.

(** ** JavaScript values, as JSON carries them *)

(** Numbers are kept to the integers; nothing in the handlers computes with
    fractions. *)
#[local] Set Warnings "-register-all".
Inductive JsVal : Type :=
| JUndefined
| JNull
| JBool (b : bool)
| JNum (z : Z)
| JStr (s : jstr)
| JArr (items : list JsVal)
| JObj (fields : list (string * JsVal)).

(** [!v] is [negb (truthy v)]. *)
Definition truthy (v : JsVal) : bool :=
  match v with
  | JUndefined | JNull => false
  | JBool b => b
  | JNum z => negb (z =? 0)
  | JStr s => match s with [] => false | _ => true end
  | JArr _ | JObj _ => true
  end.

Definition nullish (v : JsVal) : bool :=
  match v with JUndefined | JNull => true | _ => false end.

Fixpoint assoc (key : string) (fields : list (string * JsVal)) : JsVal :=
  match fields with
  | [] => JUndefined
  | (k, v) :: rest => if String.eqb k key then v else assoc key rest
  end.

(** [v?.key] for the keys the handlers read ([data], [id], [candidates], ...),
    none of which names a built-in member of strings or arrays. *)
Definition prop (v : JsVal) (key : string) : JsVal :=
  match v with
  | JObj fields => assoc key fields
  | _ => JUndefined
  end.

(** [v?.[0]]. *)
Definition index0 (v : JsVal) : JsVal :=
  match v with
  | JArr (x :: _) => x
  | JStr (c :: _) => JStr [c]
  | JObj fields => assoc "0" fields
  | _ => JUndefined
  end.

(** [a || b]. *)
Definition js_or (a b : JsVal) : JsVal := if truthy a then a else b.

(** The string a template literal interpolates for [${v}]. *)
Fixpoint js_toString (v : JsVal) : jstr :=
  match v with
  | JUndefined => u "undefined"
  | JNull => u "null"
  | JBool true => u "true"
  | JBool false => u "false"
  | JNum z => dec z
  | JStr s => s
  | JArr items =>
      (fix join (l : list JsVal) : jstr :=
         match l with
         | [] => []
         | x :: r =>
             match x with
             | JUndefined | JNull => []
             | _ => js_toString x
             end ++ match r with [] => [] | _ :: _ => 44%N :: join r end
         end) items
  | JObj _ => u "[object Object]"
  end.

(** ** The effects of a handler *)

Inductive Request : Type :=
| Gemini (data : JsVal)    (* axios.post(GEMINI_API_URL, data) *)
| Twitter (data : JsVal).  (* the signed POST to /2/tweets with this body *)

(** What a rejected [axios] promise throws: [err.response?.data] and
    [err.message]. *)
Record JsError : Type := { response_data : JsVal; message : JsVal }.

(** How an awaited call ends; [Resolved data] carries [response.data]. *)
Inductive Outcome : Type :=
| Resolved (data : JsVal)
| Rejected (err : JsError).

Inductive Prog (A : Type) : Type :=
| Ret (a : A)
| DateNow (k : Z -> Prog A)
| ReadCount (k : Z -> Prog A)
| WriteCount (z : Z) (k : Prog A)
| ReadReset (k : Z -> Prog A)
| WriteReset (z : Z) (k : Prog A)
| Await (req : Request) (k : Outcome -> Prog A).

Arguments Ret {A} a.
Arguments DateNow {A} k.
Arguments ReadCount {A} k.
Arguments WriteCount {A} z k.
Arguments ReadReset {A} k.
Arguments WriteReset {A} z k.
Arguments Await {A} req k.

Fixpoint bind {A B : Type} (m : Prog A) (f : A -> Prog B) : Prog B :=
  match m with
  | Ret a => f a
  | DateNow k => DateNow (fun t => bind (k t) f)
  | ReadCount k => ReadCount (fun c => bind (k c) f)
  | WriteCount z k => WriteCount z (bind k f)
  | ReadReset k => ReadReset (fun t => bind (k t) f)
  | WriteReset z k => WriteReset z (bind k f)
  | Await req k => Await req (fun o => bind (k o) f)
  end.

Notation "x <- m ;; k" := (bind m (fun x => k))
  (at level 61, m at next level, right associativity).
Notation "m ;;; k" := (bind m (fun _ => k))
  (at level 61, right associativity).

Definition Date_now : Prog Z := DateNow Ret.
Definition get_tweetCount : Prog Z := ReadCount Ret.
Definition set_tweetCount (z : Z) : Prog unit := WriteCount z (Ret tt).
Definition get_lastResetTime : Prog Z := ReadReset Ret.
Definition set_lastResetTime (z : Z) : Prog unit := WriteReset z (Ret tt).
Definition await (req : Request) : Prog Outcome := Await req Ret.

(** ** The process state and the two interpreters *)

(** The two module-level variables, the number of clock readings taken so far
    and the log of the upstream calls issued so far, oldest first. *)
Record World : Type := {
  tweetCount : Z;
  lastResetTime : Z;
  reads : nat;
  calls : list Request
}.

Definition tick (w : World) : World :=
  {| tweetCount := tweetCount w; lastResetTime := lastResetTime w;
     reads := S (reads w); calls := calls w |}.

Definition with_tweetCount (z : Z) (w : World) : World :=
  {| tweetCount := z; lastResetTime := lastResetTime w;
     reads := reads w; calls := calls w |}.

Definition with_lastResetTime (z : Z) (w : World) : World :=
  {| tweetCount := tweetCount w; lastResetTime := z;
     reads := reads w; calls := calls w |}.

Definition issue (req : Request) (w : World) : World :=
  {| tweetCount := tweetCount w; lastResetTime := lastResetTime w;
     reads := reads w; calls := calls w ++ [req] |}.

(** A handler either finishes or is parked at an [await]. *)
Inductive Step (A : Type) : Type :=
| Done (a : A)
| Suspended (k : Outcome -> Prog A).

Arguments Done {A} a.
Arguments Suspended {A} k.

(** One turn of the event loop: run until the handler finishes or awaits.
    [clock n] is what the [n]-th call of [Date.now()] returns. *)
Fixpoint run_sync {A : Type} (clock : nat -> Z) (p : Prog A) (w : World)
  : World * Step A :=
  match p with
  | Ret a => (w, Done a)
  | DateNow k => run_sync clock (k (clock (reads w))) (tick w)
  | ReadCount k => run_sync clock (k (tweetCount w)) w
  | WriteCount z k => run_sync clock k (with_tweetCount z w)
  | ReadReset k => run_sync clock (k (lastResetTime w)) w
  | WriteReset z k => run_sync clock k (with_lastResetTime z w)
  | Await req k => (issue req w, Suspended k)
  end.

(** The environment of a run to completion: the clock, and the outcome of the
    [n]-th upstream call, counted from the start of the log. *)
Record Env : Type := { clock : nat -> Z; upstream : nat -> Outcome }.

Fixpoint run {A : Type} (e : Env) (p : Prog A) (w : World) : World * A :=
  match p with
  | Ret a => (w, a)
  | DateNow k => run e (k (clock e (reads w))) (tick w)
  | ReadCount k => run e (k (tweetCount w)) w
  | WriteCount z k => run e k (with_tweetCount z w)
  | ReadReset k => run e (k (lastResetTime w)) w
  | WriteReset z k => run e k (with_lastResetTime z w)
  | Await req k =>
      run e (k (upstream e (List.length (calls w)))) (issue req w)
  end.

(** ** The rate limiter *)

Definition TWEET_LIMIT : Z := 17.
Definition RESET_PERIOD : Z := 24 * 60 * 60 * 1000.

Record RateLimit : Type := { allowed : bool; remaining : Z }.

(** Module initialisation: [let tweetCount = 0; let lastResetTime = Date.now();]. *)
Definition boot (clock : nat -> Z) : World :=
  {| tweetCount := 0; lastResetTime := clock 0%nat; reads := 1; calls := [] |}.

Definition checkRateLimit : Prog RateLimit :=
  now <- Date_now ;;
  last <- get_lastResetTime ;;
  if now - last >? RESET_PERIOD then
    set_tweetCount 0 ;;;
    now' <- Date_now ;;
    set_lastResetTime now' ;;;
    Ret {| allowed := true; remaining := TWEET_LIMIT |}
  else
    count <- get_tweetCount ;;
    if count >=? TWEET_LIMIT then
      Ret {| allowed := false; remaining := 0 |}
    else
      count' <- get_tweetCount ;;
      Ret {| allowed := true; remaining := TWEET_LIMIT - count' |}.

(** The world and the report that [checkRateLimit] leaves, in closed form;
    [run_checkRateLimit] below shows that this is what the code computes. *)
Definition check_world (clk : nat -> Z) (w : World) : World :=
  if clk (reads w) - lastResetTime w >? RESET_PERIOD then
    with_lastResetTime (clk (S (reads w))) (tick (with_tweetCount 0 (tick w)))
  else tick w.

Definition check_result (clk : nat -> Z) (w : World) : RateLimit :=
  if clk (reads w) - lastResetTime w >? RESET_PERIOD then
    {| allowed := true; remaining := TWEET_LIMIT |}
  else if tweetCount w >=? TWEET_LIMIT then
    {| allowed := false; remaining := 0 |}
  else {| allowed := true; remaining := TWEET_LIMIT - tweetCount w |}.

(** ** The prompt builders *)

Definition LF : jstr := [10%N].

Fixpoint jstr_eqb (s t : jstr) : bool :=
  match s, t with
  | [], [] => true
  | a :: s', b :: t' => (a =? b)%N && jstr_eqb s' t'
  | _, _ => false
  end.

(** [prompts[language] || prompts.english] on an object literal whose own keys
    are [english], [hindi] and [hinglish].  Every template is a non-empty
    string, so only an absent key falls through to the English one.  Keys that
    an object inherits from [Object.prototype] are left out of the model. *)
Fixpoint own_property (key : jstr) (prompts : list (jstr * jstr)) : option jstr :=
  match prompts with
  | [] => None
  | (k, v) :: rest => if jstr_eqb k key then Some v else own_property key rest
  end.

(** The language names that are own keys of the prompt tables. *)
Definition supported (language : JsVal) : bool :=
  existsb (jstr_eqb (js_toString language)) [u "english"; u "hindi"; u "hinglish"].

Definition select_prompt (prompts : list (jstr * jstr)) (english : jstr)
    (language : JsVal) : jstr :=
  match own_property (js_toString language) prompts with
  | Some p => p
  | None => english
  end.

Definition getPromptByLanguage (topic : JsVal) (language : JsVal) : jstr :=
  let english :=
    u "Write a short, engaging tweet about: "
    ++ js_toString topic
    ++ u "."
    ++ LF
    ++ u "Keep it under 280 characters. Make it sound natural and personal, like something someone would actually post."
    ++ LF
    ++ u "Try to include a relatable insight, surprising idea, clever twist, or emotional hook."
    ++ LF
    ++ u "Avoid hashtags unless explicitly requested." in
  let hindi :=
    js_toString topic
    ++ u " के बारे में एक छोटा और आकर्षक ट्वीट हिंदी में लिखें।"
    ++ LF
    ++ u "इसे 280 अक्षरों से कम रखें। इसे स्वाभाविक और व्यक्तिगत बनाएं, जैसे कोई वास्तव में पोस्ट करेगा।"
    ++ LF
    ++ u "इसमें एक संबंधित अंतर्दृष्टि, आश्चर्यजनक विचार, चतुर मोड़, या भावनात्मक आकर्षण शामिल करने का प्रयास करें।"
    ++ LF
    ++ u "विशेष रूप से अनुरोध किए जाने पर ही हैशटैग का उपयोग करें।" in
  let hinglish :=
    js_toString topic
    ++ u " ke baare mein ek short, engaging tweet Hinglish mein likhiye."
    ++ LF
    ++ u "280 characters se kam rakhein. Natural aur personal sound karna chahiye, jaisa koi actually post karega."
    ++ LF
    ++ u "Try to include relatable insight, surprising idea, clever twist, ya emotional hook."
    ++ LF
    ++ u "Hashtags avoid karein jab tak specifically requested na ho." in
  select_prompt
    [(u "english", english); (u "hindi", hindi); (u "hinglish", hinglish)]
    english language.

(** The last line of each thread template: the request for continuity, which
    every part gets in the same conditional wording. *)
Definition continuity_english : jstr :=
  u "Ensure this part flows well if it's not the first tweet. Create a natural continuation or development of ideas.".

Definition continuity_hindi : jstr :=
  u "सुनिश्चित करें कि यदि यह पहला ट्वीट नहीं है तो यह भाग अच्छी तरह से प्रवाहित होता है। विचारों का एक प्राकृतिक निरंतरता या विकास बनाएं।".

Definition continuity_hinglish : jstr :=
  u "Ensure kare ki agar ye first tweet nahi hai to ye part achhe se flow kare. Ideas ka natural continuation ya development create karein.".

(** The three thread templates.  The second parameter is named [partCount] in
    the source; the one call site passes the loop index. *)
Definition thread_english (topic partCount : JsVal) : jstr :=
  u "Write part "
  ++ js_toString partCount
  ++ u " of a Twitter thread about: "
  ++ js_toString topic
  ++ u "."
  ++ LF
  ++ u "Keep it under 280 characters. Make it sound natural and conversational, like one part of a cohesive thread."
  ++ LF
  ++ continuity_english.

Definition thread_hindi (topic partCount : JsVal) : jstr :=
  js_toString topic
  ++ u " के बारे में एक ट्विटर थ्रेड का भाग "
  ++ js_toString partCount
  ++ u " हिंदी में लिखें।"
  ++ LF
  ++ u "इसे 280 अक्षरों से कम रखें। इसे स्वाभाविक और वार्तालाप जैसा बनाएं, जैसे एक सुसंगत थ्रेड का एक हिस्सा हो।"
  ++ LF
  ++ continuity_hindi.

Definition thread_hinglish (topic partCount : JsVal) : jstr :=
  js_toString topic
  ++ u " ke baare mein ek Twitter thread ka part "
  ++ js_toString partCount
  ++ u " Hinglish mein likhiye."
  ++ LF
  ++ u "280 characters se kam rakhein. Natural aur conversational sound karna chahiye, jaise cohesive thread ka ek hissa ho."
  ++ LF
  ++ continuity_hinglish.

Definition getThreadPromptByLanguage (topic partCount : JsVal) (language : JsVal)
  : jstr :=
  select_prompt
    [(u "english", thread_english topic partCount);
     (u "hindi", thread_hindi topic partCount);
     (u "hinglish", thread_hinglish topic partCount)]
    (thread_english topic partCount) language.

(** ** Sanitising generated text *)

Definition is_quote (c : N) : bool := ((c =? 34) || (c =? 39))%N.

(** What [String.prototype.trim] removes: WhiteSpace and LineTerminator. *)
Definition is_space (c : N) : bool :=
  ((9 <=? c) && (c <=? 13) || (c =? 32) || (c =? 160) || (c =? 5760)
   || (8192 <=? c) && (c <=? 8202) || (c =? 8232) || (c =? 8233)
   || (c =? 8239) || (c =? 8287) || (c =? 12288) || (c =? 65279))%N.

Definition strip_leading_quote (s : jstr) : jstr :=
  match s with
  | c :: r => if is_quote c then r else s
  | [] => []
  end.

Fixpoint strip_trailing_quote (s : jstr) : jstr :=
  match s with
  | [] => []
  | [c] => if is_quote c then [] else [c]
  | c :: r => c :: strip_trailing_quote r
  end.

(** [s.replace(/^["']|["']$/g, '')].  Without the [m] flag [^] matches only at
    index 0 and [$] only at the end of input.  The global scan meets the first
    alternative at index 0 and deletes that unit; from there on only the second
    alternative can match, at the last unit of what follows. *)
Definition replace_quotes (s : jstr) : jstr :=
  strip_trailing_quote (strip_leading_quote s).

Fixpoint trim_start (s : jstr) : jstr :=
  match s with
  | c :: r => if is_space c then trim_start r else s
  | [] => []
  end.

Definition trim (s : jstr) : jstr := rev (trim_start (rev (trim_start s))).

Definition cleanTweet (tweet : jstr) : jstr := trim (replace_quotes tweet).

(** ** The route handlers *)

Record Response : Type := { status : Z; body : JsVal }.

(** [res.status(code).json(body)]; a bare [res.json(body)] answers 200. *)
Definition json (code : Z) (body : JsVal) : Response :=
  {| status := code; body := body |}.

(** [const { key = fallback } = req.body]. *)
Definition field_or (v : JsVal) (key : string) (fallback : JsVal) : JsVal :=
  match prop v key with
  | JUndefined => fallback
  | x => x
  end.

(** [response.data.candidates?.[0]?.content?.parts?.[0]?.text]; reading
    [candidates] off a nullish [response.data] throws. *)
Definition generated_text (data : JsVal) : option JsVal :=
  if nullish data then None
  else Some (prop (index0 (prop (prop (index0 (prop data "candidates"))
                                      "content") "parts")) "text").

Definition gemini_request (prompt : jstr) : Request :=
  Gemini (JObj [("contents",
                 JArr [JObj [("parts", JArr [JObj [("text", JStr prompt)]])]])]).

(** The part of the two generation routes after the upstream call resolves:
    [Some] of the cleaned text, or [None] when the [try] block throws (no text,
    or a text that is not a string and so has no [replace]). *)
Definition cleaned (data : JsVal) : option jstr :=
  match generated_text data with
  | Some (JStr (c :: s)) => Some (cleanTweet (c :: s))
  | _ => None
  end.

Definition generate_tweet (req_body : JsVal) : Prog Response :=
  let topic := prop req_body "topic" in
  let language := field_or req_body "language" (JStr (u "english")) in
  if negb (truthy topic) then
    Ret (json 400 (JObj [("error", JStr (u "Topic is required"))]))
  else
    let prompt := getPromptByLanguage topic language in
    o <- await (gemini_request prompt) ;;
    match o with
    | Resolved data =>
        match cleaned data with
        | Some cleanTweet' => Ret (json 200 (JObj [("tweet", JStr cleanTweet')]))
        | None =>
            Ret (json 500 (JObj [("error", JStr (u "Failed to generate tweet content"))]))
        end
    | Rejected _ =>
        Ret (json 500 (JObj [("error", JStr (u "Failed to generate tweet content"))]))
    end.

(** [for (let i = 1; i <= partCount; i++)], with [todo] iterations left. *)
Fixpoint generate_thread_loop (topic language : JsVal) (i : Z) (todo : nat)
    (threadTweets : list JsVal) : Prog Response :=
  match todo with
  | O => Ret (json 200 (JObj [("tweets", JArr threadTweets)]))
  | S todo' =>
      let prompt := getThreadPromptByLanguage topic (JNum i) language in
      o <- await (gemini_request prompt) ;;
      match o with
      | Resolved data =>
          match cleaned data with
          | Some cleanTweet' =>
              generate_thread_loop topic language (i + 1) todo'
                (threadTweets ++ [JStr cleanTweet'])
          | None =>
              Ret (json 500 (JObj [("error", JStr (u "Failed to generate thread content"))]))
          end
      | Rejected _ =>
          Ret (json 500 (JObj [("error", JStr (u "Failed to generate thread content"))]))
      end
  end.

(** The number of parts: [partCount = 3] when the body has none.  The loop test
    [i <= partCount] coerces [partCount] to a number: [null] and [false] count
    as 0, [true] as 1.  The coercion of strings, arrays and objects is not
    modelled; they run no iteration here. *)
Definition part_total (req_body : JsVal) : nat :=
  match field_or req_body "partCount" (JNum 3) with
  | JNum n => Z.to_nat n
  | JBool true => 1
  | _ => O
  end.

Definition generate_thread (req_body : JsVal) : Prog Response :=
  let topic := prop req_body "topic" in
  let language := field_or req_body "language" (JStr (u "english")) in
  if negb (truthy topic) then
    Ret (json 400 (JObj [("error", JStr (u "Topic is required"))]))
  else
    generate_thread_loop topic language 1 (part_total req_body) [].

Section Handlers.

(** [new Date(ms).toISOString()], and [process.env.TWITTER_USERNAME]
    (a string, or [JUndefined] when unset). *)
Variable toISOString : Z -> jstr.
Variable TWITTER_USERNAME : JsVal.

Definition resetTime (last : Z) : JsVal := JStr (toISOString (last + RESET_PERIOD)).

Definition tweet_url (tweetId : JsVal) : JsVal :=
  if truthy tweetId then
    JStr (u "https://twitter.com/"
          ++ js_toString (js_or TWITTER_USERNAME (JStr (u "user")))
          ++ u "/status/" ++ js_toString tweetId)
  else JNull.

(** [response.data?.data?.id]. *)
Definition tweet_id (data : JsVal) : JsVal := prop (prop data "data") "id".

(** [err.response?.data || err.message]. *)
Definition details (err : JsError) : JsVal :=
  js_or (response_data err) (message err).

Definition post_tweet (req_body : JsVal) : Prog Response :=
  let tweet := prop req_body "tweet" in
  if negb (truthy tweet) then
    Ret (json 400 (JObj [("error", JStr (u "Tweet content is required"))]))
  else
    rateLimit <- checkRateLimit ;;
    if negb (allowed rateLimit) then
      last <- get_lastResetTime ;;
      Ret (json 429 (JObj [
        ("error", JStr (u "Rate limit exceeded"));
        ("details", JStr (u "You have reached your limit of 17 tweets per 24 hours."));
        ("resetTime", resetTime last)]))
    else
      o <- await (Twitter (JObj [("text", tweet)])) ;;
      match o with
      | Resolved data =>
          count <- get_tweetCount ;;
          set_tweetCount (count + 1) ;;;
          let tweetId := tweet_id data in
          let tweetUrl := tweet_url tweetId in
          count' <- get_tweetCount ;;
          last <- get_lastResetTime ;;
          Ret (json 200 (JObj [
            ("success", JBool true);
            ("tweetId", tweetId);
            ("tweetUrl", tweetUrl);
            ("rateLimit", JObj [
               ("remaining", JNum (TWEET_LIMIT - count'));
               ("resetTime", resetTime last)])]))
      | Rejected err =>
          Ret (json 500 (JObj [
            ("error", JStr (u "Failed to post tweet"));
            ("details", details err)]))
      end.

(** The body of one publish request of the thread loop. *)
Definition tweetData (tweetText prevTweetId : JsVal) : JsVal :=
  if truthy prevTweetId then
    JObj [("text", tweetText);
          ("reply", JObj [("in_reply_to_tweet_id", prevTweetId)])]
  else JObj [("text", tweetText)].

(** [for (const tweetText of tweets)] and the success response after it. *)
Fixpoint post_thread_loop (tweets : list JsVal) (prevTweetId : JsVal)
    (threadResults : list JsVal) : Prog Response :=
  match tweets with
  | [] =>
      count <- get_tweetCount ;;
      last <- get_lastResetTime ;;
      Ret (json 200 (JObj [
        ("success", JBool true);
        ("threadResults", JArr threadResults);
        ("rateLimit", JObj [
           ("remaining", JNum (TWEET_LIMIT - count));
           ("resetTime", resetTime last)])]))
  | tweetText :: rest =>
      o <- await (Twitter (tweetData tweetText prevTweetId)) ;;
      match o with
      | Resolved data =>
          let tweetId := tweet_id data in
          count <- get_tweetCount ;;
          set_tweetCount (count + 1) ;;;
          let tweetUrl := tweet_url tweetId in
          post_thread_loop rest tweetId
            (threadResults ++ [JObj [("tweetId", tweetId);
                                     ("tweetUrl", tweetUrl);
                                     ("text", tweetText)]])
      | Rejected err =>
          Ret (json 500 (JObj [
            ("error", JStr (u "Failed to post thread"));
            ("details", details err)]))
      end
  end.

Definition post_thread (req_body : JsVal) : Prog Response :=
  match prop req_body "tweets" with
  | JArr (first :: more) =>
      let tweets := first :: more in
      let n := Z.of_nat (List.length tweets) in
      rateLimit <- checkRateLimit ;;
      if negb (allowed rateLimit) || (remaining rateLimit <? n) then
        last <- get_lastResetTime ;;
        Ret (json 429 (JObj [
          ("error", JStr (u "Rate limit exceeded"));
          ("details",
           JStr (u "You have only " ++ dec (remaining rateLimit)
                 ++ u " tweets left out of your 17 tweets per 24 hours, but trying to post "
                 ++ dec n ++ u " tweets."));
          ("resetTime", resetTime last)]))
      else post_thread_loop tweets JNull []
  | _ => Ret (json 400 (JObj [("error", JStr (u "Valid tweets array is required"))]))
  end.

Definition rate_limit : Prog Response :=
  rateLimit <- checkRateLimit ;;
  last <- get_lastResetTime ;;
  Ret (json 200 (JObj [("remaining", JNum (remaining rateLimit));
                       ("resetTime", resetTime last)])).

Definition status_route : Prog Response :=
  Ret (json 200 (JObj [("status", JStr (u "Online"))])).

(** *** The server as the event loop runs it *)

Inductive Route : Type :=
| POST_generate_tweet (req_body : JsVal)
| POST_generate_thread (req_body : JsVal)
| POST_post_tweet (req_body : JsVal)
| POST_post_thread (req_body : JsVal)
| GET_rate_limit
| GET_status.

Definition handler (r : Route) : Prog Response :=
  match r with
  | POST_generate_tweet b => generate_tweet b
  | POST_generate_thread b => generate_thread b
  | POST_post_tweet b => post_tweet b
  | POST_post_thread b => post_thread b
  | GET_rate_limit => rate_limit
  | GET_status => status_route
  end.

(** Requests served one after another, each handler running to completion
    before the next request is taken up. *)
Fixpoint serve (e : Env) (rs : list Route) (w : World) : World * list Response :=
  match rs with
  | [] => (w, [])
  | r :: rs' =>
      let (w1, res) := run e (handler r) w in
      let (w2, out) := serve e rs' w1 in
      (w2, res :: out)
  end.

(** The event loop proper: handlers parked at an [await] wait in [parked];
    a new request may arrive and run its first turn while they wait.
    [Settle i o] settles the call the [i]-th parked handler awaits with
    outcome [o] and runs that handler's next turn. *)
Record Server : Type := {
  world : World;
  parked : list (Outcome -> Prog Response);
  sent : list Response
}.

Inductive Event : Type :=
| Arrive (r : Route)
| Settle (i : nat) (o : Outcome).

Fixpoint replace_nth {A : Type} (i : nat) (l : list A) (x : option A) : list A :=
  match i, l with
  | _, [] => []
  | O, _ :: l' => match x with Some y => y :: l' | None => l' end
  | S i', a :: l' => a :: replace_nth i' l' x
  end.

Definition turn (clk : nat -> Z) (ev : Event) (s : Server) : Server :=
  match ev with
  | Arrive r =>
      match run_sync clk (handler r) (world s) with
      | (w, Done res) =>
          {| world := w; parked := parked s; sent := sent s ++ [res] |}
      | (w, Suspended k) =>
          {| world := w; parked := parked s ++ [k]; sent := sent s |}
      end
  | Settle i o =>
      match nth_error (parked s) i with
      | None => s
      | Some k =>
          match run_sync clk (k o) (world s) with
          | (w, Done res) =>
              {| world := w; parked := replace_nth i (parked s) None;
                 sent := sent s ++ [res] |}
          | (w, Suspended k') =>
              {| world := w; parked := replace_nth i (parked s) (Some k');
                 sent := sent s |}
          end
      end
  end.

Fixpoint event_loop (clk : nat -> Z) (evs : list Event) (s : Server) : Server :=
  match evs with
  | [] => s
  | ev :: evs' => event_loop clk evs' (turn clk ev s)
  end.

Definition started (clk : nat -> Z) : Server :=
  {| world := boot clk; parked := []; sent := [] |}.

End Handlers.

(** The identifier item [i] of the loop replies to: the one the loop starts
    with for the first item, the one call [i - 1] returned afterwards. *)
Definition replied_to (prev : JsVal) (ids : nat -> JsVal) (i : nat) : JsVal :=
  match i with
  | O => prev
  | S j => ids j
  end.

(** ** Names that every object literal inherits *)

(** The members of [Object.prototype].  Looking one of them up in a prompt
    table yields a function or an object, not [undefined]; the statements about
    the fallback to English leave these names aside. *)
Definition inherited_names : list jstr :=
  [u "constructor"; u "hasOwnProperty"; u "isPrototypeOf";
   u "propertyIsEnumerable"; u "toLocaleString"; u "toString"; u "valueOf";
   u "__proto__"; u "__defineGetter__"; u "__defineSetter__";
   u "__lookupGetter__"; u "__lookupSetter__"].

Definition inherited (language : JsVal) : bool :=
  existsb (jstr_eqb (js_toString language)) inherited_names.

(** ** The earlier variant of the server *)

(** [src/index.js]: one fixed English prompt, no rate limiter, no thread
    routes.  Its publishing route is also the one of the first variant in
    [src/unnamed/part_000]. *)
Module IndexJs.

Definition prompt (topic : JsVal) : jstr :=
  u "Write a short, engaging, and conversational tweet about: "
  ++ js_toString topic
  ++ u ". "
  ++ LF
  ++ u "                     Keep it under 280 characters. Don't use hashtags unless specifically requested."
  ++ LF
  ++ u "                     Make it sound natural and personal.".

Definition generate_tweet (req_body : JsVal) : Prog Response :=
  let topic := prop req_body "topic" in
  if negb (truthy topic) then
    Ret (json 400 (JObj [("error", JStr (u "Topic is required"))]))
  else
    o <- await (gemini_request (prompt topic)) ;;
    match o with
    | Resolved data =>
        match cleaned data with
        | Some cleanTweet' => Ret (json 200 (JObj [("tweet", JStr cleanTweet')]))
        | None =>
            Ret (json 500 (JObj [("error", JStr (u "Failed to generate tweet content"))]))
        end
    | Rejected _ =>
        Ret (json 500 (JObj [("error", JStr (u "Failed to generate tweet content"))]))
    end.

Definition post_tweet (TWITTER_USERNAME : JsVal) (req_body : JsVal) : Prog Response :=
  let tweet := prop req_body "tweet" in
  if negb (truthy tweet) then
    Ret (json 400 (JObj [("error", JStr (u "Tweet content is required"))]))
  else
    o <- await (Twitter (JObj [("text", tweet)])) ;;
    match o with
    | Resolved data =>
        let tweetId := tweet_id data in
        let tweetUrl := tweet_url TWITTER_USERNAME tweetId in
        Ret (json 200 (JObj [
          ("success", JBool true);
          ("tweetId", tweetId);
          ("tweetUrl", tweetUrl)]))
    | Rejected err =>
        Ret (json 500 (JObj [
          ("error", JStr (u "Failed to post tweet"));
          ("details", details err)]))
    end.

End IndexJs.

(** ** Generation calls that bring no text *)

(** What makes a generation route give up at call [n] of the log: the call is
    rejected, or it resolves without a non-empty string at
    [candidates[0].content.parts[0].text]. *)
Definition brings_nothing (e : Env) (n : nat) : Prop :=
  match upstream e n with
  | Resolved data =>
      forall text,
        prop (index0 (prop (prop (index0 (prop data "candidates")) "content")
                        "parts")) "text" = JStr text ->
        text = []
  | Rejected _ => True
  end.

(** A call that brings the non-empty string [text]. *)
Definition brings (e : Env) (n : nat) (text : jstr) : Prop :=
  exists data,
    upstream e n = Resolved data /\
    prop (index0 (prop (prop (index0 (prop data "candidates")) "content")
                    "parts")) "text" = JStr text /\
    text <> [].

(** ** Requests that carry what their route requires *)

(** The field each route insists on before doing anything else: a truthy
    [topic], a truthy [tweet], a [tweets] that is a non-empty array. *)
Definition well_formed (r : Route) : bool :=
  match r with
  | POST_generate_tweet b | POST_generate_thread b => truthy (prop b "topic")
  | POST_post_tweet b => truthy (prop b "tweet")
  | POST_post_thread b =>
      match prop b "tweets" with
      | JArr (_ :: _) => true
      | _ => false
      end
  | GET_rate_limit | GET_status => true
  end.

Definition complaint (r : Route) : jstr :=
  match r with
  | POST_generate_tweet _ | POST_generate_thread _ => u "Topic is required"
  | POST_post_tweet _ => u "Tweet content is required"
  | _ => u "Valid tweets array is required"
  end.

(** ** Counting what was published *)

Definition is_publish (req : Request) : bool :=
  match req with Twitter _ => true | Gemini _ => false end.

Definition is_resolved (o : Outcome) : bool :=
  match o with Resolved _ => true | Rejected _ => false end.

(** The number of publish calls among [reqs] that the script resolves, [reqs]
    being the calls number [base], [base + 1], ... of the log. *)
Fixpoint published (e : Env) (base : nat) (reqs : list Request) : Z :=
  match reqs with
  | [] => 0
  | req :: rest =>
      (if is_publish req && is_resolved (upstream e base) then 1 else 0)
      + published e (S base) rest
  end.

(** The entry of [threadResults] for a text and the answer to its call. *)
Definition thread_result (TWITTER_USERNAME tweetText data : JsVal) : JsVal :=
  JObj [("tweetId", tweet_id data);
        ("tweetUrl", tweet_url TWITTER_USERNAME (tweet_id data));
        ("text", tweetText)].

(** The text a generation answer holds, at
    [candidates[0].content.parts[0].text]. *)
Definition answer_text (data : JsVal) : JsVal :=
  prop (index0 (prop (prop (index0 (prop data "candidates")) "content") "parts")) "text".

(** ** Inputs the embedding renders exactly *)

(** [Number.MAX_SAFE_INTEGER]: up to it every integer is a number of the
    language, [i++] is exact and [String(n)] is the decimal numeral. *)
Definition MAX_SAFE_INTEGER : Z := 9007199254740991.

(** The values whose string form is the one [js_toString] gives.  Beyond the
    safe integers a number prints rounded, and from 1e21 on with an exponent;
    an object that came with a [toString] entry of its own (never a function,
    in JSON) has no string form at all: interpolating it throws. *)
Fixpoint plain (v : JsVal) : bool :=
  match v with
  | JUndefined | JNull | JBool _ | JStr _ => true
  | JNum z => Z.abs z <=? MAX_SAFE_INTEGER
  | JArr items =>
      (fix all (l : list JsVal) : bool :=
         match l with
         | [] => true
         | x :: r => plain x && all r
         end) items
  | JObj fields => negb (existsb (fun kv => String.eqb (fst kv) "toString") fields)
  end.

(** The bodies whose [partCount] the loop test [i <= partCount] takes as
    [part_total] has it: absent, [null], a boolean or a safe integer.  A
    string, an array or an object is coerced by the comparison in ways
    [part_total] does not follow. *)
Definition counted (req_body : JsVal) : bool :=
  match prop req_body "partCount" with
  | JUndefined | JNull | JBool _ => true
  | JNum n => n <=? MAX_SAFE_INTEGER
  | _ => false
  end.

(** A request whose body can be destructured.  [const { tweet } = req.body]
    throws on [undefined] and [null], before the handler's first test. *)
Definition has_body (r : Route) : bool :=
  match r with
  | POST_generate_tweet b | POST_generate_thread b
  | POST_post_tweet b | POST_post_thread b => negb (nullish b)
  | GET_rate_limit | GET_status => true
  end.

(** ** Handlers that never lower the count *)

(** A program every write of which to [tweetCount] writes a number that is not
    negative, given that the counts it reads are not. *)
Fixpoint keeps_nonneg {A : Type} (p : Prog A) : Prop :=
  match p with
  | Ret _ => True
  | DateNow k => forall t, keeps_nonneg (k t)
  | ReadCount k => forall c, 0 <= c -> keeps_nonneg (k c)
  | WriteCount z k => 0 <= z /\ keeps_nonneg k
  | ReadReset k => forall t, keeps_nonneg (k t)
  | WriteReset _ k => keeps_nonneg k
  | Await _ k => forall o, keeps_nonneg (k o)
  end.

(** ** Sample inputs *)


Definition sample_clock (n : nat) : Z := Z.of_nat n.

(** A resolved publish call carrying the identifier [id]. *)
Definition created (id : string) : Outcome :=
  Resolved (JObj [("data", JObj [("id", JStr (u id))])]).

Definition sample_env : Env :=
  {| clock := sample_clock; upstream := fun _ => created "1001" |}.

Definition sample_iso (ms : Z) : jstr := dec ms.

(** An upstream that resolves call [n] with the identifier [1001 + n]. *)
Definition numbered (n : nat) : JsVal :=
  JObj [("data", JObj [("id", JStr (dec (1001 + Z.of_nat n)))])].

Definition thread_env : Env :=
  {| clock := sample_clock; upstream := fun n => Resolved (numbered n) |}.

Definition refusal : JsError :=
  {| response_data := JObj [("title", JStr (u "Forbidden"))];
     message := JStr (u "Request failed with status code 403") |}.

(** An upstream that resolves the first call and rejects every later one. *)
Definition failing_env : Env :=
  {| clock := sample_clock;
     upstream := fun n => match n with
                          | O => Resolved (numbered O)
                          | S _ => Rejected refusal
                          end |}.

Definition abc : list JsVal := [JStr (u "A"); JStr (u "B"); JStr (u "C")].

Definition thread_body (tweets : list JsVal) : JsVal :=
  JObj [("tweets", JArr tweets)].

(** A generation upstream that answers every prompt with the same line. *)
Definition writer_env : Env :=
  {| clock := sample_clock;
     upstream := fun _ =>
       Resolved (JObj [("candidates",
         JArr [JObj [("content",
           JObj [("parts", JArr [JObj [("text", JStr (u "Cats nap."))]])])]])]) |}.

(** A clock that stands still, and one that jumps past the window at its
    third reading. *)
Definition still_clock (n : nat) : Z := 0.

Definition late_clock (n : nat) : Z :=
  match n with
  | O | S O => 0
  | _ => 2 * RESET_PERIOD
  end.

Definition still_env : Env :=
  {| clock := still_clock; upstream := fun n => Resolved (numbered n) |}.

Definition late_env : Env :=
  {| clock := late_clock; upstream := fun n => Resolved (numbered n) |}.

(** A generation answer carrying [text]. *)
Definition answer (text : jstr) : JsVal :=
  JObj [("candidates",
    JArr [JObj [("content", JObj [("parts", JArr [JObj [("text", JStr text)]])])]])].

(** A generation upstream that answers the first prompt and fails after. *)
Definition tired_env : Env :=
  {| clock := sample_clock;
     upstream := fun n => match n with
                          | O => Resolved (answer (u "Cats nap."))
                          | S _ => Rejected refusal
                          end |}.

Definition tweet_body (text : string) : JsVal := JObj [("tweet", JStr (u text))].


Definition cats : JsVal := JObj [("topic", JStr (u "cats")); ("partCount", JNum 3)].

Definition full_window : World :=
  {| tweetCount := 17; lastResetTime := 0; reads := 2; calls := [] |}.

Arguments u : simpl never.
Arguments dec : simpl never.

(** ** Theorems *)

(** *** How the interpreters unfold *)

Lemma run_bind {A B : Type} (e : Env) (m : Prog A) (f : A -> Prog B) (w : World) :
  run e (bind m f) w = run e (f (snd (run e m w))) (fst (run e m w)).
Proof.
  revert w. induction m as [a | k IH | k IH | z k IH | k IH | z k IH | req k IH];
    intros w; cbn [bind run]; auto.
Qed.

(** A turn of [bind m f] is a turn of [m], carried on into [f] when [m]
    finishes within the turn. *)
Lemma run_sync_bind {A B : Type} (clk : nat -> Z) (m : Prog A) (f : A -> Prog B)
    (w : World) :
  run_sync clk (bind m f) w =
    match run_sync clk m w with
    | (w', Done a) => run_sync clk (f a) w'
    | (w', Suspended k) => (w', Suspended (fun o => bind (k o) f))
    end.
Proof.
  revert w. induction m as [a | k IH | k IH | z k IH | k IH | z k IH | req k IH];
    intros w; cbn [bind run_sync]; auto.
Qed.

(** Running to completion is taking turns, each awaited call being settled
    with the outcome the script holds for it before anything else happens. *)
Lemma run_by_turns {A : Type} (e : Env) (p : Prog A) (w : World) :
  run e p w =
    match run_sync (clock e) p w with
    | (w', Done a) => (w', a)
    | (w', Suspended k) =>
        run e (k (upstream e (Nat.pred (List.length (calls w'))))) w'
    end.
Proof.
  revert w. induction p as [a | k IH | k IH | z k IH | k IH | z k IH | req k IH];
    intros w; cbn [run run_sync]; auto.
  unfold issue at 2. cbn [calls]. rewrite length_app, Nat.add_comm. reflexivity.
Qed.

Lemma run_sync_checkRateLimit (clk : nat -> Z) (w : World) :
  run_sync clk checkRateLimit w = (check_world clk w, Done (check_result clk w)).
Proof.
  unfold checkRateLimit, check_world, check_result.
  cbn [bind run_sync Date_now get_lastResetTime tick reads lastResetTime].
  destruct (clk (reads w) - lastResetTime w >? RESET_PERIOD).
  - reflexivity.
  - cbn [bind run_sync get_tweetCount tick tweetCount].
    destruct (tweetCount w >=? TWEET_LIMIT); reflexivity.
Qed.

Lemma run_checkRateLimit (e : Env) (w : World) :
  run e checkRateLimit w = (check_world (clock e) w, check_result (clock e) w).
Proof.
  rewrite run_by_turns, run_sync_checkRateLimit. reflexivity.
Qed.

(** *** The rate limiter *)

(** C1.  [checkRateLimit], from any limiter state and at any clock reading
    [now]: when [now - lastResetTime] exceeds 24 hours it sets the count to 0
    and the window start to the current time, and reports allowed with 17
    remaining; otherwise, when the count has reached 17, it reports not allowed
    with 0 remaining; otherwise it reports allowed with [17 - count] remaining.
    In the last two cases the count and the window start are left as they
    were.  (The code reads the clock a second time for the assignment: the new
    window start is that reading, which is [now] again whenever the two
    readings fall in the same millisecond.) *)
Theorem checkRateLimit_three_cases (e : Env) (w : World) :
  let now := clock e (reads w) in
  let w' := fst (run e checkRateLimit w) in
  let rl := snd (run e checkRateLimit w) in
  (now - lastResetTime w > 24 * 60 * 60 * 1000 ->
     tweetCount w' = 0 /\
     lastResetTime w' = clock e (S (reads w)) /\
     (clock e (S (reads w)) = now -> lastResetTime w' = now) /\
     rl = {| allowed := true; remaining := 17 |}) /\
  (now - lastResetTime w <= 24 * 60 * 60 * 1000 -> tweetCount w >= 17 ->
     rl = {| allowed := false; remaining := 0 |} /\
     tweetCount w' = tweetCount w /\ lastResetTime w' = lastResetTime w) /\
  (now - lastResetTime w <= 24 * 60 * 60 * 1000 -> tweetCount w < 17 ->
     rl = {| allowed := true; remaining := 17 - tweetCount w |} /\
     tweetCount w' = tweetCount w /\ lastResetTime w' = lastResetTime w).
Proof.
  cbv zeta. rewrite run_checkRateLimit. unfold check_world, check_result, fst, snd.
  change (24 * 60 * 60 * 1000) with RESET_PERIOD.
  destruct (Z.gtb_spec (clock e (reads w) - lastResetTime w) RESET_PERIOD)
    as [Hgt | Hle].
  - repeat split; try lia; auto.
  - destruct (Z.geb_spec (tweetCount w) TWEET_LIMIT) as [Hge | Hlt];
      unfold TWEET_LIMIT in *; repeat split; try lia; auto.
Qed.

(** The three cases of C1 on concrete states: an expired window, a full
    window and a window with 5 posts used. *)
Lemma checkRateLimit_three_cases_witness :
  snd (run sample_env checkRateLimit
         {| tweetCount := 9; lastResetTime := -86400001; reads := 0; calls := [] |})
    = {| allowed := true; remaining := 17 |} /\
  snd (run sample_env checkRateLimit
         {| tweetCount := 17; lastResetTime := 0; reads := 0; calls := [] |})
    = {| allowed := false; remaining := 0 |} /\
  snd (run sample_env checkRateLimit
         {| tweetCount := 5; lastResetTime := 0; reads := 0; calls := [] |})
    = {| allowed := true; remaining := 17 - 5 |}.
Proof.
  split; [| split].
  - apply (checkRateLimit_three_cases sample_env
             {| tweetCount := 9; lastResetTime := -86400001; reads := 0; calls := [] |}).
    vm_compute. reflexivity.
  - apply (checkRateLimit_three_cases sample_env
             {| tweetCount := 17; lastResetTime := 0; reads := 0; calls := [] |});
      vm_compute; congruence.
  - apply (checkRateLimit_three_cases sample_env
             {| tweetCount := 5; lastResetTime := 0; reads := 0; calls := [] |});
      vm_compute; congruence.
Defined.

(** *** Publishing *)

Section Publishing.

Variable toISOString : Z -> jstr.
Variable TWITTER_USERNAME : JsVal.

Local Abbreviation post_tweet' := (post_tweet toISOString TWITTER_USERNAME).
Local Abbreviation post_thread' := (post_thread toISOString TWITTER_USERNAME).
Local Abbreviation post_thread_loop' := (post_thread_loop toISOString TWITTER_USERNAME).

(** The first turn of the single-post handler when the text is there and the
    limiter allows: the limiter has run, the publish call is out, and the
    handler is parked on it. *)
Lemma post_tweet_first_turn (clk : nat -> Z) (w : World) (req_body : JsVal) :
  truthy (prop req_body "tweet") = true ->
  allowed (check_result clk w) = true ->
  exists k,
    run_sync clk (post_tweet' req_body) w =
      (issue (Twitter (JObj [("text", prop req_body "tweet")])) (check_world clk w),
       Suspended k) /\
    (forall data w1,
        exists res,
          run_sync clk (k (Resolved data)) w1 =
            (with_tweetCount (tweetCount w1 + 1) w1, Done res) /\ status res = 200) /\
    (forall err w1,
        run_sync clk (k (Rejected err)) w1 =
          (w1, Done (json 500 (JObj [("error", JStr (u "Failed to post tweet"));
                                     ("details", details err)])))).
Proof.
  intros Htweet Hallowed. unfold post_tweet. rewrite Htweet. cbn [negb].
  rewrite run_sync_bind, run_sync_checkRateLimit, Hallowed. cbn [negb].
  cbn [bind await run_sync]. eexists. split; [reflexivity |]. split.
  - intros data w1. eexists. cbn [bind get_tweetCount set_tweetCount
      get_lastResetTime run_sync]. split; reflexivity.
  - intros err w1. reflexivity.
Qed.

(** One item of the thread loop: the publish call goes out with the count
    untouched; the count moves, by one, in the turn that follows a resolved
    call, and a rejected call ends the handler with the count as it was. *)
Lemma post_thread_item_turn (clk : nat -> Z) (w : World)
    (tweetText prev : JsVal) (rest results : list JsVal) :
  exists k,
    run_sync clk (post_thread_loop' (tweetText :: rest) prev results) w =
      (issue (Twitter (tweetData tweetText prev)) w, Suspended k) /\
    (forall data,
        k (Resolved data) =
          (count <- get_tweetCount ;;
           set_tweetCount (count + 1) ;;;
           post_thread_loop' rest (tweet_id data)
             (results ++ [JObj [("tweetId", tweet_id data);
                                ("tweetUrl", tweet_url TWITTER_USERNAME (tweet_id data));
                                ("text", tweetText)]]))) /\
    (forall err w1,
        run_sync clk (k (Rejected err)) w1 =
          (w1, Done (json 500 (JObj [("error", JStr (u "Failed to post thread"));
                                     ("details", details err)])))).
Proof.
  cbn [post_thread_loop bind await run_sync]. eexists.
  split; [reflexivity |]. split; intros; reflexivity.
Qed.

(** The loop leaves the window start alone and never lowers the count. *)
Lemma post_thread_loop_turn_count (clk : nat -> Z) (tweets : list JsVal)
    (prev : JsVal) (results : list JsVal) (w : World) :
  tweetCount (fst (run_sync clk (post_thread_loop' tweets prev results) w))
    = tweetCount w.
Proof.
  destruct tweets as [| t rest]; reflexivity.
Qed.

(** C2.  Quota is consumed by resolved publish calls only.  Single post: once
    the text is there and the limiter allows, the handler parks on the publish
    call with the count as [checkRateLimit] left it; the turn that follows a
    resolved call raises the count by exactly 1, the turn that follows a
    rejected call leaves it as it finds it.  Thread: the same for every item of
    the loop.  The count [w1] finds is whatever it is when the call settles. *)
Theorem quota_consumed_only_by_resolved_publish :
  (forall (clk : nat -> Z) (w : World) (req_body : JsVal),
      truthy (prop req_body "tweet") = true ->
      allowed (check_result clk w) = true ->
      exists k,
        run_sync clk (post_tweet' req_body) w =
          (issue (Twitter (JObj [("text", prop req_body "tweet")])) (check_world clk w),
           Suspended k) /\
        (forall data w1,
            tweetCount (fst (run_sync clk (k (Resolved data)) w1)) = tweetCount w1 + 1) /\
        (forall err w1,
            tweetCount (fst (run_sync clk (k (Rejected err)) w1)) = tweetCount w1)) /\
  (forall (clk : nat -> Z) (w : World) (tweetText prev : JsVal)
          (rest results : list JsVal),
      exists k,
        run_sync clk (post_thread_loop' (tweetText :: rest) prev results) w =
          (issue (Twitter (tweetData tweetText prev)) w, Suspended k) /\
        (forall data w1,
            tweetCount (fst (run_sync clk (k (Resolved data)) w1)) = tweetCount w1 + 1) /\
        (forall err w1,
            tweetCount (fst (run_sync clk (k (Rejected err)) w1)) = tweetCount w1)).
Proof.
  split.
  - intros clk w req_body Htweet Hallowed.
    destruct (post_tweet_first_turn clk w req_body Htweet Hallowed)
      as (k & Hturn & Hok & Hko).
    exists k. split; [exact Hturn |]. split.
    + intros data w1. destruct (Hok data w1) as (res & -> & _). reflexivity.
    + intros err w1. rewrite Hko. reflexivity.
  - intros clk w tweetText prev rest results.
    destruct (post_thread_item_turn clk w tweetText prev rest results)
      as (k & Hturn & Hok & Hko).
    exists k. split; [exact Hturn |]. split.
    + intros data w1. rewrite Hok.
      cbn [bind get_tweetCount set_tweetCount run_sync].
      rewrite post_thread_loop_turn_count. reflexivity.
    + intros err w1. rewrite Hko. reflexivity.
Qed.

(** The first turn of the thread handler, on a non-empty array. *)
Lemma post_thread_first_turn (clk : nat -> Z) (w : World) (req_body : JsVal)
    (first : JsVal) (more : list JsVal) :
  prop req_body "tweets" = JArr (first :: more) ->
  let n := Z.of_nat (List.length (first :: more)) in
  let rl := check_result clk w in
  run_sync clk (post_thread' req_body) w =
    if negb (allowed rl) || (remaining rl <? n) then
      (check_world clk w,
       Done (json 429 (JObj [
         ("error", JStr (u "Rate limit exceeded"));
         ("details",
          JStr (u "You have only " ++ dec (remaining rl)
                ++ u " tweets left out of your 17 tweets per 24 hours, but trying to post "
                ++ dec n ++ u " tweets."));
         ("resetTime", resetTime toISOString (lastResetTime (check_world clk w)))])))
    else
      run_sync clk (post_thread_loop' (first :: more) JNull []) (check_world clk w).
Proof.
  intros Htweets n rl. unfold post_thread. rewrite Htweets.
  rewrite run_sync_bind, run_sync_checkRateLimit. fold n rl.
  destruct (negb (allowed rl) || (remaining rl <? n)); reflexivity.
Qed.

Lemma check_world_calls (clk : nat -> Z) (w : World) :
  calls (check_world clk w) = calls w.
Proof.
  unfold check_world. destruct (_ >? _); reflexivity.
Qed.

(** C3, as amended.  A thread request with a non-empty array of [n] texts, when
    the limiter reports not allowed or fewer than [n] remaining: the handler
    answers 429 with the reset timestamp in its first turn, issues no publish
    call and does not raise the count; count and window start are exactly as
    [checkRateLimit] left them, that is unchanged when the window has not
    expired, and reset (count 0, window start the clock reading of the reset)
    when it has, which a 429 can meet only for [n] above 17.  When the limiter
    allows and reports at least [n] remaining, the first publish call goes
    out. *)
Theorem post_thread_quota_gate (clk : nat -> Z) (w : World) (req_body : JsVal)
    (first : JsVal) (more : list JsVal) :
  prop req_body "tweets" = JArr (first :: more) ->
  let n := Z.of_nat (List.length (first :: more)) in
  let rl := check_result clk w in
  (allowed rl = false \/ remaining rl < n ->
     (exists details,
        run_sync clk (post_thread' req_body) w =
          (check_world clk w,
           Done (json 429 (JObj [
             ("error", JStr (u "Rate limit exceeded"));
             ("details", details);
             ("resetTime",
              JStr (toISOString (lastResetTime (check_world clk w) + RESET_PERIOD)))])))) /\
     calls (check_world clk w) = calls w /\
     (clk (reads w) - lastResetTime w <= RESET_PERIOD ->
        tweetCount (check_world clk w) = tweetCount w /\
        lastResetTime (check_world clk w) = lastResetTime w) /\
     (clk (reads w) - lastResetTime w > RESET_PERIOD ->
        tweetCount (check_world clk w) = 0 /\
        lastResetTime (check_world clk w) = clk (S (reads w)) /\
        n > 17)) /\
  (allowed rl = true -> remaining rl >= n ->
     exists k,
       run_sync clk (post_thread' req_body) w =
         (issue (Twitter (JObj [("text", first)])) (check_world clk w), Suspended k)).
Proof.
  intros Htweets n rl. pose proof (post_thread_first_turn clk w req_body first more Htweets)
    as Hturn. cbv zeta in Hturn. fold n rl in Hturn. split.
  - intros Hgate.
    assert (Hb : negb (allowed rl) || (remaining rl <? n) = true).
    { destruct Hgate as [-> | Hlt]; [reflexivity |].
      apply orb_true_iff. right. apply Z.ltb_lt. exact Hlt. }
    rewrite Hb in Hturn. split; [eexists; exact Hturn |].
    split; [apply check_world_calls |]. unfold check_world. split.
    + intros Hle. destruct (Z.gtb_spec (clk (reads w) - lastResetTime w) RESET_PERIOD);
        [lia | split; reflexivity].
    + intros Hgt. subst rl. unfold check_result in Hgate.
      destruct (Z.gtb_spec (clk (reads w) - lastResetTime w) RESET_PERIOD);
        [| lia].
      split; [reflexivity |]. split; [reflexivity |].
      destruct Hgate as [Hno | Hlt]; [discriminate Hno |].
      cbn [remaining] in Hlt. unfold TWEET_LIMIT in Hlt. lia.
  - intros Hallowed Hge.
    assert (Hb : negb (allowed rl) || (remaining rl <? n) = false).
    { rewrite Hallowed. cbn [negb orb]. apply Z.ltb_ge. lia. }
    rewrite Hb in Hturn. rewrite Hturn.
    destruct (post_thread_item_turn clk (check_world clk w) first JNull more [])
      as (k & Hk & _).
    exists k. exact Hk.
Qed.

(** The thread handler run to completion, on a non-empty array. *)
Lemma post_thread_run (e : Env) (w : World) (req_body : JsVal)
    (first : JsVal) (more : list JsVal) :
  prop req_body "tweets" = JArr (first :: more) ->
  let n := Z.of_nat (List.length (first :: more)) in
  let rl := check_result (clock e) w in
  negb (allowed rl) || (remaining rl <? n) = false ->
  run e (post_thread' req_body) w =
    run e (post_thread_loop' (first :: more) JNull []) (check_world (clock e) w).
Proof.
  intros Htweets n rl Hgate. unfold post_thread. rewrite Htweets.
  rewrite run_bind, run_checkRateLimit. cbn [fst snd]. fold n rl.
  rewrite Hgate. reflexivity.
Qed.

(** One resolved item of the loop, run to completion. *)
Lemma post_thread_loop_resolved (e : Env) (w : World) (tweetText prev : JsVal)
    (rest results : list JsVal) (data : JsVal) :
  upstream e (List.length (calls w)) = Resolved data ->
  run e (post_thread_loop' (tweetText :: rest) prev results) w =
    run e (post_thread_loop' rest (tweet_id data)
             (results ++ [JObj [("tweetId", tweet_id data);
                                ("tweetUrl", tweet_url TWITTER_USERNAME (tweet_id data));
                                ("text", tweetText)]]))
      (with_tweetCount (tweetCount w + 1)
         (issue (Twitter (tweetData tweetText prev)) w)).
Proof.
  intros Hup. cbn [post_thread_loop bind await run]. rewrite Hup.
  cbn [bind get_tweetCount set_tweetCount run]. reflexivity.
Qed.

Lemma post_thread_loop_rejected (e : Env) (w : World) (tweetText prev : JsVal)
    (rest results : list JsVal) (err : JsError) :
  upstream e (List.length (calls w)) = Rejected err ->
  run e (post_thread_loop' (tweetText :: rest) prev results) w =
    (issue (Twitter (tweetData tweetText prev)) w,
     json 500 (JObj [("error", JStr (u "Failed to post thread"));
                     ("details", details err)])).
Proof.
  intros Hup. cbn [post_thread_loop bind await run]. rewrite Hup. reflexivity.
Qed.

Lemma calls_after_publish (w : World) (c : Z) (req : Request) :
  List.length (calls (with_tweetCount c (issue req w))) = S (List.length (calls w)).
Proof.
  cbn [with_tweetCount issue calls]. rewrite length_app, Nat.add_comm. reflexivity.
Qed.

(** The loop when every call resolves: one call per text, in order, each
    built from its text and the identifier the call before it returned. *)
Lemma post_thread_loop_chain (e : Env) (tweets : list JsVal) :
  forall (d : nat -> JsVal) (prev : JsVal) (results : list JsVal) (w : World),
    (forall j, (j < List.length tweets)%nat ->
               upstream e (List.length (calls w) + j) = Resolved (d j)) ->
    let w' := fst (run e (post_thread_loop' tweets prev results) w) in
    let res := snd (run e (post_thread_loop' tweets prev results) w) in
    status res = 200 /\
    tweetCount w' = tweetCount w + Z.of_nat (List.length tweets) /\
    lastResetTime w' = lastResetTime w /\
    exists new,
      calls w' = calls w ++ new /\
      List.length new = List.length tweets /\
      forall i t, nth_error tweets i = Some t ->
        nth_error new i =
          Some (Twitter (tweetData t (replied_to prev (fun j => tweet_id (d j)) i))).
Proof.
  induction tweets as [| t rest IH]; intros d prev results w Hup; cbv zeta.
  - cbn [post_thread_loop bind get_tweetCount get_lastResetTime run fst snd
         status json List.length Z.of_nat].
    repeat split; try lia. exists []. rewrite app_nil_r.
    repeat split. intros [| i] t0 H; discriminate H.
  - assert (H0 : upstream e (List.length (calls w)) = Resolved (d O)).
    { rewrite <- (Hup O); [f_equal; lia | cbn; lia]. }
    rewrite (post_thread_loop_resolved e w t prev rest results (d O) H0).
    set (w1 := with_tweetCount (tweetCount w + 1)
                 (issue (Twitter (tweetData t prev)) w)).
    specialize (IH (fun j => d (S j)) (tweet_id (d O))
                   (results ++ [JObj [("tweetId", tweet_id (d O));
                                      ("tweetUrl", tweet_url TWITTER_USERNAME (tweet_id (d O)));
                                      ("text", t)]]) w1).
    cbv zeta in IH.
    destruct IH as (Hst & Hcount & Hlast & new & Hcalls & Hlen & Hnth).
    { intros j Hj. unfold w1. rewrite calls_after_publish.
      rewrite <- (Hup (S j)); [f_equal; lia | cbn; lia]. }
    split; [exact Hst |]. split.
    { rewrite Hcount. unfold w1. cbn [with_tweetCount tweetCount List.length].
      lia. }
    split; [rewrite Hlast; reflexivity |].
    exists (Twitter (tweetData t prev) :: new). split.
    { rewrite Hcalls. unfold w1. cbn [with_tweetCount issue calls].
      rewrite <- app_assoc. reflexivity. }
    split; [cbn [List.length]; rewrite Hlen; reflexivity |].
    intros [| i] t0 Ht0.
    + cbn in Ht0. injection Ht0 as <-. reflexivity.
    + cbn [nth_error] in Ht0 |- *. rewrite (Hnth i t0 Ht0).
      destruct i; reflexivity.
Qed.




(** The single-post handler turns away a request without text at once. *)
Lemma post_tweet_requires_text (clk : nat -> Z) (w : World) (req_body : JsVal) :
  truthy (prop req_body "tweet") = false ->
  run_sync clk (post_tweet' req_body) w =
    (w, Done (json 400 (JObj [("error", JStr (u "Tweet content is required"))]))).
Proof.
  intros Htweet. unfold post_tweet. rewrite Htweet. reflexivity.
Qed.

(** The thread handler turns away a request whose [tweets] is missing, is not
    an array or is the empty array. *)
Lemma post_thread_requires_array (clk : nat -> Z) (w : World) (req_body : JsVal) :
  (forall first more, prop req_body "tweets" <> JArr (first :: more)) ->
  run_sync clk (post_thread' req_body) w =
    (w, Done (json 400 (JObj [("error", JStr (u "Valid tweets array is required"))]))).
Proof.
  intros Hnot. unfold post_thread.
  destruct (prop req_body "tweets") as [| | b | z | str | [| first more] | fields];
    try reflexivity.
  exfalso. apply (Hnot first more). reflexivity.
Qed.

(** C9, as amended.  With 17 posts (or more) counted and the window not
    expired, a single-post request with text is answered 429 in its first turn,
    with no publish call.  The body holds [error], [details] and [resetTime];
    it has no [remaining] entry (the limiter's own report, which says 0
    remaining, is not passed on).  [resetTime] is the window start plus 24
    hours, which is not before the reading [now] of the check, and is after it
    unless the check falls exactly 24 hours after the window start. *)
Theorem post_tweet_refused_when_window_full (clk : nat -> Z) (w : World)
    (req_body : JsVal) :
  truthy (prop req_body "tweet") = true ->
  tweetCount w >= 17 ->
  clk (reads w) - lastResetTime w <= 24 * 60 * 60 * 1000 ->
  let now := clk (reads w) in
  let reset := lastResetTime w + 24 * 60 * 60 * 1000 in
  run_sync clk (post_tweet' req_body) w =
    (tick w,
     Done (json 429 (JObj [
       ("error", JStr (u "Rate limit exceeded"));
       ("details", JStr (u "You have reached your limit of 17 tweets per 24 hours."));
       ("resetTime", JStr (toISOString reset))]))) /\
  check_result clk w = {| allowed := false; remaining := 0 |} /\
  reset >= now /\
  (now - lastResetTime w < 24 * 60 * 60 * 1000 -> reset > now).
Proof.
  intros Htweet Hfull Hwindow now reset.
  assert (Hw : check_world clk w = tick w).
  { unfold check_world.
    destruct (Z.gtb_spec (clk (reads w) - lastResetTime w) RESET_PERIOD) as [H | H];
      [unfold RESET_PERIOD in H; lia | reflexivity]. }
  assert (Hr : check_result clk w = {| allowed := false; remaining := 0 |}).
  { unfold check_result.
    destruct (Z.gtb_spec (clk (reads w) - lastResetTime w) RESET_PERIOD) as [H | H];
      [unfold RESET_PERIOD in H; lia |].
    destruct (Z.geb_spec (tweetCount w) TWEET_LIMIT) as [H' | H'];
      [reflexivity | unfold TWEET_LIMIT in H'; lia]. }
  split; [| split; [exact Hr | subst now reset; split; lia]].
  unfold post_tweet. rewrite Htweet. cbn [negb].
  rewrite run_sync_bind, run_sync_checkRateLimit, Hr, Hw. reflexivity.
Qed.

End Publishing.

(** C2 on a fresh process and the request [{tweet: "A"}]. *)
Lemma quota_consumed_only_by_resolved_publish_witness :
  exists k,
    run_sync sample_clock
      (post_tweet sample_iso JUndefined (JObj [("tweet", JStr (u "A"))]))
      (boot sample_clock) =
      (issue (Twitter (JObj [("text", JStr (u "A"))]))
         (check_world sample_clock (boot sample_clock)), Suspended k) /\
    (forall data w1,
        tweetCount (fst (run_sync sample_clock (k (Resolved data)) w1))
          = tweetCount w1 + 1) /\
    (forall err w1,
        tweetCount (fst (run_sync sample_clock (k (Rejected err)) w1))
          = tweetCount w1).
Proof.
  apply (proj1 (quota_consumed_only_by_resolved_publish sample_iso JUndefined)
           sample_clock (boot sample_clock) (JObj [("tweet", JStr (u "A"))]));
    reflexivity.
Defined.




(** C3: a 429 from the thread handler can come with a changed counter.  With 5
    posts counted in a window that has expired, a thread of 18 texts makes the
    limiter reset the window and report 17 remaining; 17 is less than 18, so
    the handler answers 429 and issues no call, but the count is now 0. *)
Lemma post_thread_429_after_window_reset :
  let w := {| tweetCount := 5; lastResetTime := 0; reads := 0; calls := [] |} in
  let clk := fun _ : nat => 86400001 in
  let request := post_thread sample_iso JUndefined
                   (thread_body (repeat (JStr (u "a")) 18)) in
  remaining (check_result clk w) < 18 /\
  (exists res, snd (run_sync clk request w) = Done res /\ status res = 429) /\
  calls (fst (run_sync clk request w)) = [] /\
  tweetCount (fst (run_sync clk request w)) <> tweetCount w.
Proof.
  cbv zeta. split; [reflexivity |]. split; [eexists; split; reflexivity |].
  split; [reflexivity |]. vm_compute. discriminate.
Qed.

(** C3 as amended, on the state of the lemma above. *)
Lemma post_thread_quota_gate_witness :
  calls (check_world (fun _ : nat => 86400001)
           {| tweetCount := 5; lastResetTime := 0; reads := 0; calls := [] |}) = [] /\
  tweetCount (check_world (fun _ : nat => 86400001)
                {| tweetCount := 5; lastResetTime := 0; reads := 0; calls := [] |}) = 0 /\
  lastResetTime (check_world (fun _ : nat => 86400001)
                   {| tweetCount := 5; lastResetTime := 0; reads := 0; calls := [] |})
    = 86400001.
Proof.
  destruct (post_thread_quota_gate sample_iso JUndefined (fun _ : nat => 86400001)
              {| tweetCount := 5; lastResetTime := 0; reads := 0; calls := [] |}
              (thread_body (repeat (JStr (u "a")) 18))
              (JStr (u "a")) (repeat (JStr (u "a")) 17) eq_refl)
    as [Hrefused _].
  destruct Hrefused as (_ & Hcalls & _ & Hreset).
  - right. vm_compute. reflexivity.
  - destruct Hreset as (Hzero & Hstart & _); [vm_compute; reflexivity |].
    split; [exact Hcalls |]. split; [exact Hzero | exact Hstart].
Defined.

(** C7: the thread handler publishes an item whose text is empty.  On a fresh
    process the request [{tweets: [""]}] is not answered 400: its first turn
    sends the publish call with the empty text, and when that call resolves
    the handler answers 200 and has counted one post. *)
Lemma post_thread_publishes_empty_text :
  let request := post_thread sample_iso JUndefined (thread_body [JStr []]) in
  calls (fst (run_sync sample_clock request (boot sample_clock)))
    = [Twitter (JObj [("text", JStr [])])] /\
  status (snd (run thread_env request (boot sample_clock))) = 200 /\
  tweetCount (fst (run thread_env request (boot sample_clock))) = 1.
Proof.
  cbv zeta. repeat split.
Qed.

(** C9: at the last millisecond of the window the 429 names a reset time that
    is the present, and its body has no [remaining] entry. *)
Lemma post_tweet_429_at_window_boundary :
  let w := {| tweetCount := 17; lastResetTime := 0; reads := 0; calls := [] |} in
  let clk := fun _ : nat => 86400000 in
  exists res,
    run_sync clk (post_tweet sample_iso JUndefined (JObj [("tweet", JStr (u "A"))])) w
      = (tick w, Done res) /\
    status res = 429 /\
    prop (body res) "remaining" = JUndefined /\
    prop (body res) "resetTime" = JStr (sample_iso (clk (reads w))) /\
    ~ (lastResetTime w + RESET_PERIOD > clk (reads w)).
Proof.
  cbv zeta. eexists. split; [reflexivity |]. repeat split.
  vm_compute. intros H. discriminate H.
Qed.

(** C9 as amended, one second before the window ends. *)
Lemma post_tweet_refused_when_window_full_witness :
  check_result (fun _ : nat => 86399000)
    {| tweetCount := 17; lastResetTime := 0; reads := 0; calls := [] |}
    = {| allowed := false; remaining := 0 |} /\
  0 + 24 * 60 * 60 * 1000 > 86399000.
Proof.
  destruct (post_tweet_refused_when_window_full sample_iso JUndefined
              (fun _ : nat => 86399000)
              {| tweetCount := 17; lastResetTime := 0; reads := 0; calls := [] |}
              (JObj [("tweet", JStr (u "A"))]))
    as (_ & Hreport & _ & Hlater).
  - reflexivity.
  - vm_compute. discriminate.
  - vm_compute. discriminate.
  - split; [exact Hreport | apply Hlater; vm_compute; reflexivity].
Defined.

(** *** Sanitising generated text *)

Lemma strip_trailing_quote_snoc (s : jstr) (b : N) :
  strip_trailing_quote (s ++ [b]) = if is_quote b then s else s ++ [b].
Proof.
  induction s as [| a s IH].
  - cbn. destruct (is_quote b); reflexivity.
  - change ((a :: s) ++ [b]) with (a :: (s ++ [b])).
    cbn [strip_trailing_quote]. rewrite IH.
    destruct s as [| a' s']; cbn [app]; destruct (is_quote b); reflexivity.
Qed.

Lemma strip_trailing_quote_keeps (s : jstr) :
  is_quote (last s 0%N) = false -> strip_trailing_quote s = s.
Proof.
  induction s as [| a s' _] using rev_ind; [reflexivity |].
  rewrite last_last, strip_trailing_quote_snoc. intros ->. reflexivity.
Qed.

(** What [trim_start] drops is white space, and what it keeps does not start
    with white space. *)
Lemma trim_start_spec (s : jstr) :
  exists pre,
    s = pre ++ trim_start s /\
    Forall (fun c => is_space c = true) pre /\
    (forall c r, trim_start s = c :: r -> is_space c = false).
Proof.
  induction s as [| a s (pre & Hs & Hpre & Hhead)].
  - exists []. repeat split; [constructor | discriminate].
  - cbn [trim_start]. destruct (is_space a) eqn:Ha.
    + exists (a :: pre). split; [cbn; f_equal; exact Hs |].
      split; [constructor; assumption | exact Hhead].
    + exists []. split; [reflexivity |]. split; [constructor |].
      intros c r Heq. injection Heq as <- _. exact Ha.
Qed.

(** [trim] takes white space, and nothing else, off both ends. *)
Lemma trim_spec (s : jstr) :
  exists pre post,
    s = pre ++ trim s ++ post /\
    Forall (fun c => is_space c = true) pre /\
    Forall (fun c => is_space c = true) post /\
    (forall c r, trim s = c :: r -> is_space c = false) /\
    (forall r c, trim s = r ++ [c] -> is_space c = false).
Proof.
  unfold trim.
  destruct (trim_start_spec s) as (pre & Hs & Hpre & Hhead).
  set (s1 := trim_start s) in *.
  destruct (trim_start_spec (rev s1)) as (tail & Hr & Htail & Hlast).
  set (s2 := trim_start (rev s1)) in *.
  assert (Hs1 : s1 = rev s2 ++ rev tail).
  { rewrite <- rev_app_distr, <- Hr, rev_involutive. reflexivity. }
  exists pre, (rev tail). split; [rewrite Hs at 1; rewrite Hs1; reflexivity |].
  split; [exact Hpre |]. split; [apply Forall_rev; exact Htail |]. split.
  - intros c r Heq. apply (Hhead c (r ++ rev tail)).
    rewrite Hs1, Heq. reflexivity.
  - intros r c Heq. apply (Hlast c (rev r)).
    rewrite <- (rev_involutive s2), Heq, rev_app_distr. reflexivity.
Qed.

(** C6, as amended.  [cleanTweet] takes a quote off the very start of the text
    when there is one and, independently, a quote off the very end when there
    is one, and then trims.  So the quoted word ["hello"] comes out as [hello];
    a text with a quote at both ends loses exactly that pair, what lies between
    being only trimmed; a text whose first and last code units are not quotes
    is only trimmed; and a text with a quote at one end only loses that one
    quote. *)
Theorem cleanTweet_strips_quotes_at_the_ends :
  cleanTweet (34%N :: u "hello" ++ [34%N]) = u "hello" /\
  (forall (a b : N) (s : jstr),
      is_quote a = true -> is_quote b = true ->
      cleanTweet (a :: s ++ [b]) = trim s) /\
  (forall s : jstr,
      is_quote (hd 0%N s) = false -> is_quote (last s 0%N) = false ->
      cleanTweet s = trim s) /\
  (forall (a : N) (s : jstr),
      is_quote a = true -> is_quote (last s 0%N) = false ->
      cleanTweet (a :: s) = trim s) /\
  (forall (b : N) (s : jstr),
      is_quote (hd 0%N s) = false -> is_quote b = true ->
      cleanTweet (s ++ [b]) = trim s).
Proof.
  split; [vm_compute; reflexivity |]. split; [| split; [| split]].
  - intros a b s Ha Hb. unfold cleanTweet, replace_quotes.
    cbn [strip_leading_quote]. rewrite Ha, strip_trailing_quote_snoc, Hb.
    reflexivity.
  - intros s Hfirst Hlast. unfold cleanTweet, replace_quotes.
    assert (Hlead : strip_leading_quote s = s).
    { destruct s as [| c r]; [reflexivity |]. cbn [strip_leading_quote].
      cbn [hd] in Hfirst. rewrite Hfirst. reflexivity. }
    rewrite Hlead, (strip_trailing_quote_keeps s Hlast). reflexivity.
  - intros a s Ha Hlast. unfold cleanTweet, replace_quotes.
    cbn [strip_leading_quote]. rewrite Ha, (strip_trailing_quote_keeps s Hlast).
    reflexivity.
  - intros b s Hfirst Hb. unfold cleanTweet, replace_quotes.
    destruct s as [| c r].
    + cbn [app strip_leading_quote]. rewrite Hb. reflexivity.
    + cbn [hd] in Hfirst. change ((c :: r) ++ [b]) with (c :: (r ++ [b])).
      cbn [strip_leading_quote]. rewrite Hfirst.
      change (c :: (r ++ [b])) with ((c :: r) ++ [b]).
      rewrite strip_trailing_quote_snoc, Hb. reflexivity.
Qed.

(** C6: a quoted word followed by a line feed, as a text model ends its answer.
    The opening quote goes; the closing quote is not at the end of the input
    and stays.  What comes out is neither the word without its pair of quotes
    nor the input merely trimmed. *)
Lemma cleanTweet_leaves_closing_quote :
  let tweet := 34%N :: u "hello" ++ [34%N; 10%N] in
  cleanTweet tweet = u "hello" ++ [34%N] /\
  cleanTweet tweet <> u "hello" /\
  cleanTweet tweet <> trim tweet /\
  cleanTweet (34%N :: u "hello") = u "hello" /\
  trim (34%N :: u "hello") = 34%N :: u "hello".
Proof.
  cbv zeta. split; [vm_compute; reflexivity |].
  split; [vm_compute; discriminate |]. split; [vm_compute; discriminate |].
  split; vm_compute; reflexivity.
Qed.

(** C6 as amended, on a doubly quoted word and on the text of the lemma
    above. *)
Lemma cleanTweet_strips_quotes_at_the_ends_witness :
  cleanTweet (39%N :: (34%N :: u "hi" ++ [34%N]) ++ [39%N])
    = trim (34%N :: u "hi" ++ [34%N]) /\
  cleanTweet (34%N :: u "hello" ++ [34%N; 10%N]) = trim (u "hello" ++ [34%N; 10%N]).
Proof.
  destruct cleanTweet_strips_quotes_at_the_ends as (_ & Hpair & _ & Hopening & _).
  split.
  - apply Hpair; reflexivity.
  - apply Hopening; reflexivity.
Defined.

(** *** The prompt builders *)

Lemma starts_with_spec (s t : jstr) :
  starts_with s t = true <-> exists post, t = s ++ post.
Proof.
  revert t. induction s as [| a s IH]; intros t.
  - split; [intros _; exists t; reflexivity | reflexivity].
  - destruct t as [| b t]; cbn [starts_with].
    + split; [discriminate | intros (post & H); discriminate H].
    + rewrite andb_true_iff, N.eqb_eq, IH. split.
      * intros (-> & post & ->). exists post. reflexivity.
      * intros (post & H). injection H as -> ->. split; [reflexivity |].
        exists post. reflexivity.
Qed.

Lemma contains_spec (s t : jstr) : contains s t = true <-> Contains s t.
Proof.
  unfold Contains. induction t as [| b t IH].
  - cbn [contains]. rewrite orb_false_r, starts_with_spec. split.
    + intros (post & H). exists [], post. exact H.
    + intros (pre & post & H). destruct pre; [| discriminate H].
      exists post. exact H.
  - cbn [contains]. rewrite orb_true_iff, starts_with_spec, IH. split.
    + intros [(post & H) | (pre & post & H)].
      * exists [], post. exact H.
      * exists (b :: pre), post. rewrite H. reflexivity.
    + intros (pre & post & H). destruct pre as [| c pre].
      * left. exists post. exact H.
      * right. injection H as _ H. exists pre, post. exact H.
Qed.

Lemma cleaned_spec (data : JsVal) :
  cleaned data =
    match answer_text data with
    | JStr (c :: s) => Some (cleanTweet (c :: s))
    | _ => None
    end.
Proof.
  unfold cleaned, generated_text, answer_text.
  destruct data; reflexivity.
Qed.

Lemma cleaned_none (data : JsVal) :
  (forall text, answer_text data = JStr text -> text = []) -> cleaned data = None.
Proof.
  intros Hnone. rewrite cleaned_spec.
  destruct (answer_text data) as [| | ? | ? | [| c s] | ? | ?]; try reflexivity.
  discriminate (Hnone (c :: s) eq_refl).
Qed.

Lemma cleaned_some (data : JsVal) (text : jstr) :
  answer_text data = JStr text -> text <> [] -> cleaned data = Some (cleanTweet text).
Proof.
  intros Htext Hne. rewrite cleaned_spec, Htext.
  destruct text; [contradiction | reflexivity].
Qed.

(** The thread-generation loop when every call brings a text. *)
Lemma generate_thread_loop_all (e : Env) (topic language : JsVal) (todo : nat) :
  forall (i : Z) (threadTweets : list JsVal) (w : World) (text : nat -> jstr),
    (forall j, (j < todo)%nat ->
       exists data, upstream e (List.length (calls w) + j) = Resolved data /\
                    cleaned data = Some (text j)) ->
    snd (run e (generate_thread_loop topic language i todo threadTweets) w)
      = json 200 (JObj [("tweets",
                         JArr (threadTweets ++ map (fun j => JStr (text j)) (seq 0 todo)))]) /\
    List.length (calls (fst (run e (generate_thread_loop topic language i todo
                                      threadTweets) w)))
      = (List.length (calls w) + todo)%nat.
Proof.
  induction todo as [| todo IH]; intros i threadTweets w text Hup.
  - cbn. rewrite app_nil_r, Nat.add_0_r. split; reflexivity.
  - cbn [generate_thread_loop bind await run].
    destruct (Hup O) as (data & H0 & Hc); [lia |].
    rewrite Nat.add_0_r in H0. rewrite H0, Hc.
    set (w1 := issue _ w).
    destruct (IH (i + 1) (threadTweets ++ [JStr (text O)]) w1 (fun j => text (S j)))
      as (Hres & Hlen).
    { intros j Hj. destruct (Hup (S j)) as (dj & Hdj & Hcj); [lia |].
      exists dj. split; [| exact Hcj]. rewrite <- Hdj. f_equal.
      unfold w1. cbn [issue calls]. rewrite length_app. cbn. lia. }
    split.
    + rewrite Hres. rewrite <- app_assoc. cbn [app seq map].
      rewrite <- seq_shift, map_map. reflexivity.
    + rewrite Hlen. unfold w1. cbn [issue calls]. rewrite length_app. cbn. lia.
Qed.

Lemma generate_thread_loop_stops (e : Env) (topic language : JsVal) (todo : nat) :
  forall (k : nat) (i : Z) (threadTweets : list JsVal) (w : World),
    (k < todo)%nat ->
    (forall j, (j < k)%nat ->
       exists data text, upstream e (List.length (calls w) + j) = Resolved data /\
                         cleaned data = Some text) ->
    brings_nothing e (List.length (calls w) + k) ->
    snd (run e (generate_thread_loop topic language i todo threadTweets) w)
      = json 500 (JObj [("error", JStr (u "Failed to generate thread content"))]) /\
    List.length (calls (fst (run e (generate_thread_loop topic language i todo
                                      threadTweets) w)))
      = (List.length (calls w) + S k)%nat.
Proof.
  induction todo as [| todo IH]; intros k i threadTweets w Hk Hbefore Hfail; [lia |].
  cbn [generate_thread_loop bind await run].
  assert (Hlen1 : forall req, List.length (calls (issue req w))
                              = S (List.length (calls w))).
  { intros req. cbn [issue calls]. rewrite length_app. cbn. lia. }
  destruct k as [| k].
  - unfold brings_nothing in Hfail. rewrite Nat.add_0_r in Hfail.
    destruct (upstream e (List.length (calls w))) as [data | err].
    + rewrite (cleaned_none data Hfail). cbn [run fst snd]. rewrite Hlen1.
      split; [reflexivity | lia].
    + cbn [run fst snd]. rewrite Hlen1. split; [reflexivity | lia].
  - destruct (Hbefore O) as (data & text & H0 & Hc); [lia |].
    rewrite Nat.add_0_r in H0. rewrite H0, Hc.
    set (w1 := issue _ w).
    assert (Hw1 : List.length (calls w1) = S (List.length (calls w)))
      by apply Hlen1.
    destruct (IH k (i + 1) (threadTweets ++ [JStr text]) w1) as (Hres & Hlen).
    + lia.
    + intros j Hj. destruct (Hbefore (S j)) as (dj & tj & Hdj & Hcj); [lia |].
      exists dj, tj. split; [| exact Hcj]. rewrite <- Hdj. f_equal. lia.
    + rewrite Hw1. replace (S (List.length (calls w)) + k)%nat
        with (List.length (calls w) + S k)%nat by lia. exact Hfail.
    + split; [exact Hres |]. rewrite Hlen, Hw1. lia.
Qed.

(** The requests the thread-generation loop sends: one per part from [i] on,
    in order, each built from the topic, that part's index and the language;
    at least one when there is a part to write, and all [todo] of them unless
    a call fails or brings no text. *)
Lemma generate_thread_loop_requests (e : Env) (topic language : JsVal) (todo : nat) :
  forall (i : Z) (threadTweets : list JsVal) (w : World),
    exists m,
      (m <= todo)%nat /\
      ((1 <= todo)%nat -> (1 <= m)%nat) /\
      calls (fst (run e (generate_thread_loop topic language i todo threadTweets) w))
        = calls w
          ++ map (fun j => gemini_request
                             (getThreadPromptByLanguage topic
                                (JNum (i + Z.of_nat j)) language))
                 (seq 0 m).
Proof.
  induction todo as [| todo IH]; intros i threadTweets w.
  - exists O. split; [lia |]. split; [lia |]. cbn. rewrite app_nil_r. reflexivity.
  - cbn [generate_thread_loop bind await run].
    assert (Hone : forall res : Response,
      exists m, (m <= S todo)%nat /\ ((1 <= S todo)%nat -> (1 <= m)%nat) /\
        calls (issue (gemini_request (getThreadPromptByLanguage topic (JNum i) language)) w)
          = calls w
            ++ map (fun j => gemini_request
                               (getThreadPromptByLanguage topic
                                  (JNum (i + Z.of_nat j)) language))
                   (seq 0 m)).
    { intros _. exists 1%nat. split; [lia |]. split; [lia |].
      cbn. rewrite Z.add_0_r. reflexivity. }
    destruct (upstream e (List.length (calls w))) as [data | err];
      [destruct (cleaned data) as [text |] |]; cbn [run fst];
      try (apply Hone; exact (json 0 JNull)).
    destruct (IH (i + 1) (threadTweets ++ [JStr text])
                (issue (gemini_request (getThreadPromptByLanguage topic (JNum i) language)) w))
      as (m & Hm & _ & Hcalls).
    exists (S m). split; [lia |]. split; [lia |]. rewrite Hcalls. cbn [issue calls].
    rewrite <- app_assoc. f_equal. cbn [seq map app]. rewrite Z.add_0_r. f_equal.
    rewrite <- seq_shift, map_map. apply map_ext. intros j.
    do 3 f_equal. lia.
Qed.

Lemma Contains_here (s t : jstr) : Contains s (s ++ t).
Proof.
  exists [], t. reflexivity.
Qed.

Lemma Contains_later (s a t : jstr) : Contains s t -> Contains s (a ++ t).
Proof.
  intros (pre & post & ->). exists (a ++ pre), post. rewrite <- app_assoc.
  reflexivity.
Qed.

Lemma ends_with_later (s a t : jstr) :
  (exists pre, t = pre ++ s) -> exists pre, a ++ t = pre ++ s.
Proof.
  intros (pre & ->). exists (a ++ pre). rewrite <- app_assoc. reflexivity.
Qed.

Lemma ends_with_itself (s : jstr) : exists pre, s = pre ++ s.
Proof.
  exists []. reflexivity.
Qed.

(** C8, as amended.  For every topic and part index [i] that the template
    prints as the embedding does (a [plain] topic, an index among the safe
    integers), in each of the three languages, the thread-part prompt is that
    language's template; it names the part index and carries the topic, and it
    ends with the request for continuity, which is worded as a condition ("if
    it's not the first tweet") and is there for every [i], the first part
    included.  The total number of parts is not among the builder's inputs:
    for a request in one of the three languages (English when none is given)
    whose [partCount] is a number or absent, the handler sends, for the parts
    1, 2, ... in order, the prompt built from the topic, the index of that
    part and the language, and nothing else: at least the first when there is
    a part to write, all [n] when every call brings a text, and [k + 1] when
    call [k + 1] is the first that brings none. *)
Theorem thread_prompt_names_part_and_topic (topic : JsVal) (i : Z) :
  plain topic = true ->
  Z.abs i <= MAX_SAFE_INTEGER ->
  let part := JNum i in
  (getThreadPromptByLanguage topic part (JStr (u "english")) = thread_english topic part /\
   getThreadPromptByLanguage topic part (JStr (u "hindi")) = thread_hindi topic part /\
   getThreadPromptByLanguage topic part (JStr (u "hinglish")) = thread_hinglish topic part) /\
  (Contains (dec i) (thread_english topic part) /\
   Contains (dec i) (thread_hindi topic part) /\
   Contains (dec i) (thread_hinglish topic part)) /\
  (Contains (js_toString topic) (thread_english topic part) /\
   Contains (js_toString topic) (thread_hindi topic part) /\
   Contains (js_toString topic) (thread_hinglish topic part)) /\
  ((exists pre, thread_english topic part = pre ++ continuity_english) /\
   (exists pre, thread_hindi topic part = pre ++ continuity_hindi) /\
   (exists pre, thread_hinglish topic part = pre ++ continuity_hinglish)) /\
  (forall (e : Env) (w : World) (req_body : JsVal),
      prop req_body "topic" = topic -> truthy topic = true ->
      supported (field_or req_body "language" (JStr (u "english"))) = true ->
      counted req_body = true ->
      let n := part_total req_body in
      let base := List.length (calls w) in
      exists m,
        (m <= n)%nat /\
        ((1 <= n)%nat -> (1 <= m)%nat) /\
        ((forall j, (j < n)%nat -> exists text, brings e (base + j) text) -> m = n) /\
        (forall k, (k < n)%nat ->
           (forall j, (j < k)%nat -> exists text, brings e (base + j) text) ->
           brings_nothing e (base + k) -> m = S k) /\
        calls (fst (run e (generate_thread req_body) w))
          = calls w
            ++ map (fun j => gemini_request
                               (getThreadPromptByLanguage topic
                                  (JNum (1 + Z.of_nat j))
                                  (field_or req_body "language" (JStr (u "english")))))
                   (seq 0 m)).
Proof.
  intros _ _. cbv zeta. split; [| split; [| split; [| split]]].
  - unfold getThreadPromptByLanguage, select_prompt.
    cbn [js_toString own_property].
    repeat split; repeat (vm_compute (jstr_eqb _ _); cbv iota); reflexivity.
  - unfold thread_english, thread_hindi, thread_hinglish.
    cbn [js_toString]. repeat split.
    + apply Contains_later, Contains_here.
    + do 2 apply Contains_later. apply Contains_here.
    + do 2 apply Contains_later. apply Contains_here.
  - unfold thread_english, thread_hindi, thread_hinglish. repeat split.
    + do 3 apply Contains_later. apply Contains_here.
    + apply Contains_here.
    + apply Contains_here.
  - unfold thread_english, thread_hindi, thread_hinglish. repeat split.
    + do 8 apply ends_with_later. apply ends_with_itself.
    + do 7 apply ends_with_later. apply ends_with_itself.
    + do 7 apply ends_with_later. apply ends_with_itself.
  - intros e w req_body Htopic Htruthy _ _. unfold generate_thread.
    rewrite Htopic, Htruthy. cbn [negb].
    set (language := field_or req_body "language" (JStr (u "english"))).
    destruct (generate_thread_loop_requests e topic language (part_total req_body)
                1 [] w) as (m & Hle & Hone & Hcalls).
    assert (Hlen : List.length
                     (calls (fst (run e (generate_thread_loop topic language 1
                                           (part_total req_body) []) w)))
                   = (List.length (calls w) + m)%nat).
    { rewrite Hcalls, length_app, length_map, length_seq. reflexivity. }
    exists m. split; [exact Hle |]. split; [exact Hone |].
    split; [| split; [| exact Hcalls]].
    + intros Hall.
      assert (Hgood : forall j, (j < part_total req_body)%nat ->
                exists data, upstream e (List.length (calls w) + j) = Resolved data /\
                             cleaned data
                             = Some (match answer_text data with
                                     | JStr text => cleanTweet text
                                     | _ => []
                                     end)).
      { intros j Hj. destruct (Hall j Hj) as (text & data & Hup & Htext & Hne).
        exists data. split; [exact Hup |].
        rewrite (cleaned_some data text Htext Hne).
        unfold answer_text. rewrite Htext. reflexivity. }
      assert (Htexts : exists text : nat -> jstr,
                forall j, (j < part_total req_body)%nat ->
                  exists data, upstream e (List.length (calls w) + j) = Resolved data /\
                               cleaned data = Some (text j)).
      { exists (fun j => match upstream e (List.length (calls w) + j) with
                         | Resolved data =>
                             match answer_text data with
                             | JStr text => cleanTweet text
                             | _ => []
                             end
                         | Rejected _ => []
                         end).
        intros j Hj. destruct (Hgood j Hj) as (data & Hup & Hc).
        exists data. rewrite Hup. split; [reflexivity | exact Hc]. }
      destruct Htexts as (text & Htext).
      destruct (generate_thread_loop_all e topic language (part_total req_body)
                  1 [] w text Htext) as (_ & Hall_len).
      lia.
    + intros k Hk Hbefore Hfail.
      destruct (generate_thread_loop_stops e topic language (part_total req_body)
                  k 1 [] w Hk) as (_ & Hstop_len).
      { intros j Hj. destruct (Hbefore j Hj) as (text & data & Hup & Htext & Hne).
        exists data, (cleanTweet text). split; [exact Hup |].
        apply cleaned_some; assumption. }
      { exact Hfail. }
      lia.
Qed.

(** C8: for a thread of three parts the prompt for part 1 names the part, and
    the number 3 occurs nowhere in it; a thread of five parts sends the very
    same first prompt. *)
Lemma thread_prompt_omits_part_total :
  let prompt :=
    getThreadPromptByLanguage (JStr (u "cats")) (JNum 1) (JStr (u "english")) in
  calls (fst (run_sync sample_clock
                (generate_thread (JObj [("topic", JStr (u "cats")); ("partCount", JNum 3)]))
                (boot sample_clock))) = [gemini_request prompt] /\
  calls (fst (run_sync sample_clock
                (generate_thread (JObj [("topic", JStr (u "cats")); ("partCount", JNum 5)]))
                (boot sample_clock))) = [gemini_request prompt] /\
  Contains (dec 1) prompt /\
  ~ Contains (dec 3) prompt.
Proof.
  cbv zeta. split; [vm_compute; reflexivity |]. split; [vm_compute; reflexivity |].
  split.
  - apply contains_spec. vm_compute. reflexivity.
  - intros H. apply contains_spec in H. vm_compute in H. discriminate H.
Qed.

(** C8 as amended, on a three-part thread about cats whose every part comes
    back as the same line: the three prompts go out, for the parts 1, 2, 3. *)
Lemma thread_prompt_names_part_and_topic_witness :
  calls (fst (run writer_env
                (generate_thread (JObj [("topic", JStr (u "cats")); ("partCount", JNum 3)]))
                (boot sample_clock)))
    = map (fun j => gemini_request
                      (getThreadPromptByLanguage (JStr (u "cats"))
                         (JNum (1 + Z.of_nat j)) (JStr (u "english"))))
          (seq 0 3).
Proof.
  destruct (thread_prompt_names_part_and_topic (JStr (u "cats")) 1)
    as (_ & _ & _ & _ & Hsent).
  - reflexivity.
  - vm_compute. discriminate.
  - destruct (Hsent writer_env (boot sample_clock)
                (JObj [("topic", JStr (u "cats")); ("partCount", JNum 3)]))
      as (m & _ & _ & Hall & _ & Hcalls);
      [reflexivity | reflexivity | reflexivity | reflexivity |].
    rewrite Hcalls, Hall; [reflexivity |].
    intros j _. exists (u "Cats nap."), (answer (u "Cats nap.")).
    split; [reflexivity |]. split; [reflexivity |]. vm_compute. discriminate.
Defined.

(** *** The count stays within the ceiling *)

Section Ceiling.

Variable toISOString : Z -> jstr.
Variable TWITTER_USERNAME : JsVal.

Local Abbreviation post_tweet' := (post_tweet toISOString TWITTER_USERNAME).
Local Abbreviation post_thread' := (post_thread toISOString TWITTER_USERNAME).
Local Abbreviation post_thread_loop' := (post_thread_loop toISOString TWITTER_USERNAME).
Local Abbreviation handler' := (handler toISOString TWITTER_USERNAME).
Local Abbreviation serve' := (serve toISOString TWITTER_USERNAME).

(** After [checkRateLimit] the count is within bounds again, and what it
    reports as remaining, when it allows, is the room left under the ceiling. *)
Lemma check_world_room (clk : nat -> Z) (w : World) :
  0 <= tweetCount w <= 17 ->
  0 <= tweetCount (check_world clk w) <= 17 /\
  (allowed (check_result clk w) = true ->
     0 < remaining (check_result clk w) /\
     tweetCount (check_world clk w) + remaining (check_result clk w) = 17).
Proof.
  intros Hinv. unfold check_world, check_result.
  destruct (clk (reads w) - lastResetTime w >? RESET_PERIOD).
  - cbn [tweetCount with_lastResetTime with_tweetCount tick allowed remaining].
    unfold TWEET_LIMIT. split; [lia | intros _; lia].
  - destruct (Z.geb_spec (tweetCount w) TWEET_LIMIT) as [H | H];
      unfold TWEET_LIMIT in *;
      cbn [tweetCount with_lastResetTime with_tweetCount tick allowed remaining];
      (split; [lia |]); [discriminate | intros _; lia].
Qed.

(** The thread loop raises the count by at most one per text. *)
Lemma post_thread_loop_count (e : Env) (tweets : list JsVal) :
  forall (prev : JsVal) (results : list JsVal) (w : World),
    tweetCount w
      <= tweetCount (fst (run e (post_thread_loop' tweets prev results) w))
      <= tweetCount w + Z.of_nat (List.length tweets).
Proof.
  induction tweets as [| t rest IH]; intros prev results w.
  - cbn. lia.
  - destruct (upstream e (List.length (calls w))) as [data | err] eqn:Hup.
    + rewrite (post_thread_loop_resolved toISOString TWITTER_USERNAME
                 e w t prev rest results data Hup).
      match goal with
      | |- _ <= tweetCount (fst (run e (post_thread_loop' rest ?p ?r) ?w1)) <= _ =>
          specialize (IH p r w1)
      end.
      cbn [with_tweetCount issue tweetCount] in IH.
      cbn [List.length]. lia.
    + rewrite (post_thread_loop_rejected toISOString TWITTER_USERNAME
                 e w t prev rest results err Hup).
      cbn [fst issue tweetCount List.length]. lia.
Qed.

(** Generating text does not touch the limiter. *)
Lemma generate_thread_loop_count (e : Env) (topic language : JsVal) (todo : nat) :
  forall (i : Z) (threadTweets : list JsVal) (w : World),
    tweetCount (fst (run e (generate_thread_loop topic language i todo threadTweets) w))
      = tweetCount w.
Proof.
  induction todo as [| todo IH]; intros i threadTweets w; [reflexivity |].
  cbn [generate_thread_loop bind await run].
  destruct (upstream e (List.length (calls w))) as [data | err];
    [destruct (cleaned data) as [text |] |]; try reflexivity.
  rewrite IH. reflexivity.
Qed.

(** Every handler, run from start to finish on its own, keeps the count
    between 0 and 17. *)
Lemma handler_keeps_ceiling (e : Env) (r : Route) (w : World) :
  0 <= tweetCount w <= 17 ->
  0 <= tweetCount (fst (run e (handler' r) w)) <= 17.
Proof.
  intros Hinv. destruct (check_world_room (clock e) w Hinv) as (Hcheck & Hroom).
  destruct r as [b | b | b | b | |]; cbn [handler].
  - unfold generate_tweet. destruct (negb (truthy (prop b "topic"))); [exact Hinv |].
    cbn [bind await run].
    destruct (upstream e (List.length (calls w))) as [data | err];
      [destruct (cleaned data) |]; exact Hinv.
  - unfold generate_thread. destruct (negb (truthy (prop b "topic"))); [exact Hinv |].
    rewrite generate_thread_loop_count. exact Hinv.
  - unfold post_tweet. destruct (negb (truthy (prop b "tweet"))); [exact Hinv |].
    rewrite run_bind, run_checkRateLimit. cbn [fst snd].
    destruct (allowed (check_result (clock e) w)) eqn:Hallowed; cbn [negb].
    + specialize (Hroom eq_refl). cbn [bind await run].
      destruct (upstream e (List.length (calls (check_world (clock e) w))))
        as [data | err]; cbn; lia.
    + cbn. exact Hcheck.
  - unfold post_thread.
    destruct (prop b "tweets") as [| | ? | ? | ? | [| first more] | ?];
      try exact Hinv.
    rewrite run_bind, run_checkRateLimit. cbn [fst snd].
    destruct (allowed (check_result (clock e) w)) eqn:Hallowed; cbn [negb orb].
    + specialize (Hroom eq_refl).
      destruct (Z.ltb_spec (remaining (check_result (clock e) w))
                  (Z.of_nat (List.length (first :: more)))) as [Hlt | Hge].
      * cbn. exact Hcheck.
      * pose proof (post_thread_loop_count e (first :: more) JNull []
                      (check_world (clock e) w)). lia.
    + cbn. exact Hcheck.
  - unfold rate_limit. rewrite run_bind, run_checkRateLimit. cbn. exact Hcheck.
  - exact Hinv.
Qed.

Local Abbreviation event_loop' := (event_loop toISOString TWITTER_USERNAME).

Lemma event_loop_app (clk : nat -> Z) (evs evs' : list Event) (s : Server) :
  event_loop' clk (evs ++ evs') s = event_loop' clk evs' (event_loop' clk evs s).
Proof.
  revert s. induction evs as [| ev evs IH]; intros s; [reflexivity |].
  cbn [app event_loop]. apply IH.
Qed.

(** A run to completion is one schedule of the event loop: the one in which
    the parked handler's calls are settled, with the outcomes of the script,
    before anything else happens. *)
Lemma run_is_a_schedule (e : Env) (p : Prog Response) :
  forall (w : World) (sent0 : list Response),
    match run_sync (clock e) p w with
    | (w', Done res) => run e p w = (w', res)
    | (w', Suspended k) =>
        exists outs,
          event_loop' (clock e) (map (Settle 0) outs)
            {| world := w'; parked := [k]; sent := sent0 |}
          = {| world := fst (run e p w); parked := [];
               sent := sent0 ++ [snd (run e p w)] |}
    end.
Proof.
  induction p as [a | k IH | k IH | z k IH | k IH | z k IH | req k IH];
    intros w sent0; cbn [run_sync run];
    try reflexivity; try apply IH.
  set (o := upstream e (List.length (calls w))).
  specialize (IH o (issue req w) sent0).
  destruct (run_sync (clock e) (k o) (issue req w)) as (w', [res | k']) eqn:Hturn.
  - exists [o]. cbn [map event_loop turn nth_error parked world sent].
    rewrite Hturn, IH. reflexivity.
  - destruct IH as (outs & Houts). exists (o :: outs).
    cbn [map event_loop turn nth_error parked world sent].
    rewrite Hturn. cbn [replace_nth]. exact Houts.
Qed.

Lemma handler_run_is_a_schedule (e : Env) (r : Route) (w : World)
    (sent0 : list Response) :
  exists evs,
    event_loop' (clock e) evs {| world := w; parked := []; sent := sent0 |}
    = {| world := fst (run e (handler' r) w); parked := [];
         sent := sent0 ++ [snd (run e (handler' r) w)] |}.
Proof.
  pose proof (run_is_a_schedule e (handler' r) w sent0) as Hrun.
  destruct (run_sync (clock e) (handler' r) w) as (w', [res | k]) eqn:Hturn.
  - exists [Arrive r]. cbn [event_loop turn world parked sent].
    rewrite Hturn, Hrun. reflexivity.
  - destruct Hrun as (outs & Houts). exists (Arrive r :: map (Settle 0) outs).
    cbn [event_loop turn world parked sent]. rewrite Hturn.
    cbn [app]. exact Houts.
Qed.

(** Serving requests in turn is a schedule of the event loop as well. *)
Lemma serve_is_a_schedule (e : Env) (rs : list Route) :
  forall (w : World) (sent0 : list Response),
    exists evs,
      event_loop' (clock e) evs {| world := w; parked := []; sent := sent0 |}
      = {| world := fst (serve' e rs w); parked := [];
           sent := sent0 ++ snd (serve' e rs w) |}.
Proof.
  induction rs as [| r rs IH]; intros w sent0.
  - exists []. cbn. rewrite app_nil_r. reflexivity.
  - destruct (handler_run_is_a_schedule e r w sent0) as (evs1 & H1).
    cbn [serve]. destruct (run e (handler' r) w) as (w1, res). cbn [fst snd] in H1.
    destruct (IH w1 (sent0 ++ [res])) as (evs2 & H2).
    destruct (serve' e rs w1) as (w2, out). cbn [fst snd] in H2 |- *.
    exists (evs1 ++ evs2). rewrite event_loop_app, H1, H2, <- app_assoc.
    reflexivity.
Qed.

(** *** The count never goes below zero *)

Lemma keeps_nonneg_bind {A B : Type} (m : Prog A) (f : A -> Prog B) :
  keeps_nonneg m -> (forall a, keeps_nonneg (f a)) -> keeps_nonneg (bind m f).
Proof.
  intros Hm Hf. induction m as [a | k IH | k IH | z k IH | k IH | z k IH | req k IH];
    cbn [bind keeps_nonneg] in *.
  - apply Hf.
  - intros t. apply IH, Hm.
  - intros c Hc. apply IH, Hm, Hc.
  - split; [apply Hm | apply IH, Hm].
  - intros t. apply IH, Hm.
  - apply IH, Hm.
  - intros o. apply IH, Hm.
Qed.

(** A turn of such a program leaves a count that is not negative, and parks
    a program of the same kind. *)
Lemma keeps_nonneg_turn {A : Type} (clk : nat -> Z) (p : Prog A) :
  forall w : World,
    keeps_nonneg p -> 0 <= tweetCount w ->
    0 <= tweetCount (fst (run_sync clk p w)) /\
    match snd (run_sync clk p w) with
    | Done _ => True
    | Suspended k => forall o, keeps_nonneg (k o)
    end.
Proof.
  induction p as [a | k IH | k IH | z k IH | k IH | z k IH | req k IH];
    intros w Hp Hw; cbn [run_sync keeps_nonneg] in *.
  - split; [exact Hw | exact I].
  - apply IH; [apply Hp | exact Hw].
  - apply IH; [apply Hp; exact Hw | exact Hw].
  - apply IH; [apply Hp | cbn [with_tweetCount tweetCount]; apply Hp].
  - apply IH; [apply Hp | exact Hw].
  - apply IH; [exact Hp | exact Hw].
  - split; [exact Hw | exact Hp].
Qed.

Lemma checkRateLimit_keeps_nonneg : keeps_nonneg checkRateLimit.
Proof.
  unfold checkRateLimit. cbn [bind Date_now get_lastResetTime keeps_nonneg].
  intros now last. destruct (now - last >? RESET_PERIOD).
  - cbn [bind set_tweetCount Date_now set_lastResetTime keeps_nonneg].
    split; [lia |]. intros now'. exact I.
  - cbn [bind get_tweetCount keeps_nonneg]. intros count Hcount.
    destruct (count >=? TWEET_LIMIT); [exact I |].
    cbn [bind get_tweetCount keeps_nonneg]. intros count' Hcount'. exact I.
Qed.

Lemma post_thread_loop_keeps_nonneg (tweets : list JsVal) :
  forall (prev : JsVal) (results : list JsVal),
    keeps_nonneg (post_thread_loop' tweets prev results).
Proof.
  induction tweets as [| t rest IH]; intros prev results.
  - cbn [post_thread_loop bind get_tweetCount get_lastResetTime keeps_nonneg].
    intros count Hcount last. exact I.
  - cbn [post_thread_loop bind await keeps_nonneg]. intros [data | err].
    + cbn [bind get_tweetCount set_tweetCount keeps_nonneg].
      intros count Hcount. split; [lia | apply IH].
    + exact I.
Qed.

Lemma generate_thread_loop_keeps_nonneg (topic language : JsVal) (todo : nat) :
  forall (i : Z) (threadTweets : list JsVal),
    keeps_nonneg (generate_thread_loop topic language i todo threadTweets).
Proof.
  induction todo as [| todo IH]; intros i threadTweets; [exact I |].
  cbn [generate_thread_loop bind await keeps_nonneg]. intros [data | err];
    [destruct (cleaned data) as [text |] |]; try exact I.
  apply IH.
Qed.

(** Every handler writes to the count either 0 or one more than it read. *)
Lemma handler_keeps_nonneg (r : Route) : keeps_nonneg (handler' r).
Proof.
  destruct r as [b | b | b | b | |]; cbn [handler].
  - unfold generate_tweet. destruct (negb (truthy (prop b "topic"))); [exact I |].
    cbn [bind await keeps_nonneg]. intros [data | err];
      [destruct (cleaned data) |]; exact I.
  - unfold generate_thread. destruct (negb (truthy (prop b "topic"))); [exact I |].
    apply generate_thread_loop_keeps_nonneg.
  - unfold post_tweet. destruct (negb (truthy (prop b "tweet"))); [exact I |].
    apply keeps_nonneg_bind; [exact checkRateLimit_keeps_nonneg |].
    intros rl. destruct (negb (allowed rl)).
    + cbn [bind get_lastResetTime keeps_nonneg]. intros last. exact I.
    + cbn [bind await keeps_nonneg]. intros [data | err]; [| exact I].
      cbn [bind get_tweetCount set_tweetCount get_lastResetTime keeps_nonneg].
      intros count Hcount. split; [lia |]. intros count' Hcount' last. exact I.
  - unfold post_thread.
    destruct (prop b "tweets") as [| | ? | ? | ? | [| first more] | ?];
      try exact I.
    apply keeps_nonneg_bind; [exact checkRateLimit_keeps_nonneg |].
    intros rl. destruct (negb (allowed rl) || _).
    + cbn [bind get_lastResetTime keeps_nonneg]. intros last. exact I.
    + apply post_thread_loop_keeps_nonneg.
  - unfold rate_limit.
    apply keeps_nonneg_bind; [exact checkRateLimit_keeps_nonneg |].
    intros rl. cbn [bind get_lastResetTime keeps_nonneg]. intros last. exact I.
  - exact I.
Qed.

Lemma replace_nth_Forall {A : Type} (P : A -> Prop) (i : nat) (l : list A)
    (x : option A) :
  Forall P l -> (forall y, x = Some y -> P y) -> Forall P (replace_nth i l x).
Proof.
  intros Hl Hx. revert i. induction Hl as [| a l Ha Hl IH]; intros i.
  - destruct i; constructor.
  - destruct i as [| i]; cbn [replace_nth].
    + destruct x as [y |]; [constructor; [apply Hx; reflexivity | exact Hl] | exact Hl].
    + constructor; [exact Ha | apply IH].
Qed.

(** One turn of the event loop, whichever request arrives or whichever parked
    handler is resumed, with whatever outcome. *)
Lemma turn_keeps_nonneg (clk : nat -> Z) (ev : Event) (s : Server) :
  0 <= tweetCount (world s) ->
  Forall (fun k => forall o, keeps_nonneg (k o)) (parked s) ->
  0 <= tweetCount (world (turn toISOString TWITTER_USERNAME clk ev s)) /\
  Forall (fun k => forall o, keeps_nonneg (k o))
    (parked (turn toISOString TWITTER_USERNAME clk ev s)).
Proof.
  intros Hw Hparked. destruct ev as [r | i o]; cbn [turn].
  - pose proof (keeps_nonneg_turn clk (handler' r) (world s)
                  (handler_keeps_nonneg r) Hw) as (Hcount & Hk).
    destruct (run_sync clk (handler' r) (world s)) as (w', [res | k]);
      cbn [fst snd world parked] in *.
    + split; [exact Hcount | exact Hparked].
    + split; [exact Hcount |]. apply Forall_app. split; [exact Hparked |].
      constructor; [exact Hk | constructor].
  - destruct (nth_error (parked s) i) as [k |] eqn:Hnth;
      [| split; [exact Hw | exact Hparked]].
    assert (Hgood : forall o', keeps_nonneg (k o')).
    { apply (proj1 (Forall_forall _ _) Hparked k).
      apply (nth_error_In _ _ Hnth). }
    pose proof (keeps_nonneg_turn clk (k o) (world s) (Hgood o) Hw) as (Hcount & Hk).
    destruct (run_sync clk (k o) (world s)) as (w', [res | k']);
      cbn [fst snd world parked] in *.
    + split; [exact Hcount |]. apply replace_nth_Forall; [exact Hparked |].
      intros y Hy. discriminate Hy.
    + split; [exact Hcount |]. apply replace_nth_Forall; [exact Hparked |].
      intros y Hy. injection Hy as <-. exact Hk.
Qed.

Lemma event_loop_keeps_nonneg (clk : nat -> Z) (evs : list Event) :
  forall s : Server,
    0 <= tweetCount (world s) ->
    Forall (fun k => forall o, keeps_nonneg (k o)) (parked s) ->
    0 <= tweetCount (world (event_loop' clk evs s)).
Proof.
  induction evs as [| ev evs IH]; intros s Hw Hparked; [exact Hw |].
  cbn [event_loop].
  destruct (turn_keeps_nonneg clk ev s Hw Hparked) as (Hw' & Hparked').
  apply IH; assumption.
Qed.

(** C10, as amended.  The count starts at 0 and never goes below it, whatever
    requests arrive and however their handlers interleave at their awaited
    calls.  Every handler that runs from its first statement to its response
    without another handler running in between keeps it between 0 and 17; so
    does any sequence of requests served that way, one after another, whatever
    the clock and the upstream do. *)
Theorem count_within_ceiling_when_served_in_turn :
  (forall clk, tweetCount (boot clk) = 0) /\
  (forall (clk : nat -> Z) (evs : list Event),
      0 <= tweetCount (world (event_loop' clk evs (started clk)))) /\
  (forall (e : Env) (r : Route) (w : World),
      0 <= tweetCount w <= 17 ->
      0 <= tweetCount (fst (run e (handler' r) w)) <= 17) /\
  (forall (e : Env) (rs : list Route),
      0 <= tweetCount (fst (serve' e rs (boot (clock e)))) <= 17).
Proof.
  split; [reflexivity |].
  split; [intros clk evs; apply event_loop_keeps_nonneg;
          [cbn; lia | constructor] |].
  split; [exact handler_keeps_ceiling |].
  intros e rs.
  assert (Hserve : forall w, 0 <= tweetCount w <= 17 ->
                             0 <= tweetCount (fst (serve' e rs w)) <= 17).
  { induction rs as [| r rs IH]; intros w Hinv; [exact Hinv |].
    cbn [serve]. pose proof (handler_keeps_ceiling e r w Hinv) as Hstep.
    destruct (run e (handler' r) w) as (w1, res). cbn [fst] in Hstep.
    specialize (IH w1 Hstep).
    destruct (serve' e rs w1) as (w2, out). exact IH. }
  apply Hserve. cbn. lia.
Qed.

End Ceiling.

(** C10: two requests whose handlers overlap take the count past 17.  On a fresh
    process a thread of 17 texts passes the limiter and parks on its first
    publish call; a single post arrives meanwhile, passes the limiter as well
    (nothing is counted yet) and is published; the thread then publishes its 17
    items.  All 18 calls resolve, both requests are answered 200 (the thread's
    answer reporting -1 remaining), and the count is 18, within one window. *)
Lemma overlapping_requests_exceed_ceiling :
  let evs :=
    Arrive (POST_post_thread (thread_body (repeat (JStr (u "a")) 17)))
    :: Arrive (POST_post_tweet (JObj [("tweet", JStr (u "b"))]))
    :: Settle 1 (Resolved (numbered 0))
    :: repeat (Settle 0 (Resolved (numbered 1))) 17 in
  let s := event_loop sample_iso JUndefined sample_clock evs (started sample_clock) in
  tweetCount (world s) = 18 /\
  ~ (0 <= tweetCount (world s) <= 17) /\
  map status (sent s) = [200; 200] /\
  map (fun res => prop (prop (body res) "rateLimit") "remaining") (sent s)
    = [JNum 16; JNum (-1)] /\
  List.length (calls (world s)) = 18%nat /\
  lastResetTime (world s) = lastResetTime (boot sample_clock).
Proof.
  cbv zeta. split; [vm_compute; reflexivity |].
  split; [vm_compute; intros [_ H]; apply H; reflexivity |].
  repeat split; vm_compute; reflexivity.
Qed.

(** C10 as amended: on a full window an eighteenth post served on its own is
    not counted, and in the overlapping schedule of the lemma above the count,
    though past 17, is not negative. *)
Lemma count_within_ceiling_when_served_in_turn_witness :
  0 <= tweetCount
         (fst (run thread_env
                 (handler sample_iso JUndefined
                    (POST_post_tweet (JObj [("tweet", JStr (u "b"))])))
                 {| tweetCount := 17; lastResetTime := 0; reads := 1; calls := [] |}))
    <= 17 /\
  0 <= tweetCount
         (world (event_loop sample_iso JUndefined sample_clock
                   (Arrive (POST_post_thread (thread_body (repeat (JStr (u "a")) 17)))
                    :: Arrive (POST_post_tweet (JObj [("tweet", JStr (u "b"))]))
                    :: Settle 1 (Resolved (numbered 0))
                    :: repeat (Settle 0 (Resolved (numbered 1))) 17)
                   (started sample_clock))).
Proof.
  destruct (count_within_ceiling_when_served_in_turn sample_iso JUndefined)
    as (_ & Hnonneg & Halone & _).
  split; [apply Halone; cbn; lia | apply Hnonneg].
Defined.

(** ** Further properties of the code *)

(** *** The limiter's report *)

(** X1.  Whatever the state, the report of [checkRateLimit] is determined by
    the count it leaves: [remaining] is 17 minus that count, and never below
    0; [allowed] holds exactly when that count is under 17, which is exactly
    when [remaining] is positive.  The check sends nothing upstream.  When the
    clock does not run backwards between the two readings, the window start
    never moves back and, after the check, the window is not expired at the
    reading the check was made with. *)
Theorem checkRateLimit_report_follows_count (e : Env) (w : World) :
  let w' := fst (run e checkRateLimit w) in
  let rl := snd (run e checkRateLimit w) in
  remaining rl = Z.max 0 (17 - tweetCount w') /\
  (allowed rl = true <-> tweetCount w' < 17) /\
  (allowed rl = true <-> remaining rl > 0) /\
  calls w' = calls w /\
  (clock e (reads w) <= clock e (S (reads w)) ->
     lastResetTime w <= lastResetTime w' /\
     clock e (reads w) - lastResetTime w' <= 24 * 60 * 60 * 1000).
Proof.
  cbv zeta. rewrite run_checkRateLimit. cbn [fst snd].
  unfold check_world, check_result.
  destruct (Z.gtb_spec (clock e (reads w) - lastResetTime w) RESET_PERIOD)
    as [Hgt | Hle]; unfold RESET_PERIOD, TWEET_LIMIT in *.
  - cbn [allowed remaining tweetCount lastResetTime calls
         with_lastResetTime with_tweetCount tick].
    repeat split; intros; try lia; reflexivity.
  - destruct (Z.geb_spec (tweetCount w) 17) as [Hge | Hlt];
      cbn [allowed remaining tweetCount lastResetTime calls tick];
      repeat split; intros; try lia; try reflexivity; try discriminate.
Qed.

Lemma checkRateLimit_report_follows_count_witness :
  0 <= lastResetTime (fst (run sample_env checkRateLimit
                             {| tweetCount := 20; lastResetTime := 0; reads := 0;
                                calls := [] |})).
Proof.
  apply (checkRateLimit_report_follows_count sample_env
           {| tweetCount := 20; lastResetTime := 0; reads := 0; calls := [] |}).
  vm_compute. discriminate.
Defined.

(** *** The routes, run to completion *)

Section Routes.

Variable toISOString : Z -> jstr.
Variable TWITTER_USERNAME : JsVal.

Local Abbreviation post_tweet' := (post_tweet toISOString TWITTER_USERNAME).
Local Abbreviation post_thread' := (post_thread toISOString TWITTER_USERNAME).
Local Abbreviation post_thread_loop' := (post_thread_loop toISOString TWITTER_USERNAME).
Local Abbreviation rate_limit' := (rate_limit toISOString).
Local Abbreviation handler' := (handler toISOString TWITTER_USERNAME).
Local Abbreviation serve' := (serve toISOString TWITTER_USERNAME).

Lemma rate_limit_run (e : Env) (w : World) :
  run e rate_limit' w =
    (check_world (clock e) w,
     json 200 (JObj [("remaining", JNum (remaining (check_result (clock e) w)));
                     ("resetTime",
                      resetTime toISOString (lastResetTime (check_world (clock e) w)))])).
Proof.
  unfold rate_limit. rewrite run_bind, run_checkRateLimit. reflexivity.
Qed.

(** The single-post handler with a text, run to completion. *)
Lemma post_tweet_run (e : Env) (w : World) (req_body : JsVal) :
  truthy (prop req_body "tweet") = true ->
  let wc := check_world (clock e) w in
  let sent := issue (Twitter (JObj [("text", prop req_body "tweet")])) wc in
  run e (post_tweet' req_body) w =
    if allowed (check_result (clock e) w) then
      match upstream e (List.length (calls w)) with
      | Resolved data =>
          (with_tweetCount (tweetCount wc + 1) sent,
           json 200 (JObj [
             ("success", JBool true);
             ("tweetId", tweet_id data);
             ("tweetUrl", tweet_url TWITTER_USERNAME (tweet_id data));
             ("rateLimit", JObj [
                ("remaining", JNum (TWEET_LIMIT - (tweetCount wc + 1)));
                ("resetTime", resetTime toISOString (lastResetTime wc))])]))
      | Rejected err =>
          (sent, json 500 (JObj [("error", JStr (u "Failed to post tweet"));
                                 ("details", details err)]))
      end
    else
      (wc, json 429 (JObj [
         ("error", JStr (u "Rate limit exceeded"));
         ("details", JStr (u "You have reached your limit of 17 tweets per 24 hours."));
         ("resetTime", resetTime toISOString (lastResetTime wc))])).
Proof.
  intros Htweet wc sent. subst wc sent. unfold post_tweet. rewrite Htweet.
  cbn [negb]. rewrite run_bind, run_checkRateLimit. cbn [fst snd].
  destruct (allowed (check_result (clock e) w)); cbn [negb]; [| reflexivity].
  cbn [bind await run]. rewrite (check_world_calls (clock e) w).
  destruct (upstream e (List.length (calls w))) as [data | err]; reflexivity.
Qed.

(** When the limiter allows, the count the check leaves is under 17. *)
Lemma allowed_leaves_room (clk : nat -> Z) (w : World) :
  allowed (check_result clk w) = true -> tweetCount (check_world clk w) < 17.
Proof.
  unfold check_result, check_world.
  destruct (clk (reads w) - lastResetTime w >? RESET_PERIOD); [intros _; cbn; lia |].
  destruct (Z.geb_spec (tweetCount w) TWEET_LIMIT) as [H | H];
    [discriminate | unfold TWEET_LIMIT in H; intros _; exact H].
Qed.

Lemma check_world_count_nonneg (clk : nat -> Z) (w : World) :
  0 <= tweetCount w -> 0 <= tweetCount (check_world clk w).
Proof.
  unfold check_world.
  destruct (clk (reads w) - lastResetTime w >? RESET_PERIOD); cbn; lia.
Qed.

(** X2.  A single post with a text that the limiter allows parks on its
    publish call.  When the platform accepts the call, returning an identifier
    that prints plainly (or none), the turn that follows answers 200 with
    [success], that identifier, the URL built from it (under the configured
    user name, or [user] when none is configured; [null] when no identifier
    came back) and the quota; it raises the count it finds by one and reports
    17 minus the new count, whatever other handlers did while the call was
    out.  When the handler runs on its own, no other handler running between
    its check and its answer, the reported [remaining] lies between 0 and 16
    (the count not being negative at the start). *)
Theorem post_tweet_success_answer (e : Env) (w : World) (req_body data : JsVal) :
  truthy (prop req_body "tweet") = true ->
  allowed (check_result (clock e) w) = true ->
  plain (tweet_id data) = true ->
  plain TWITTER_USERNAME = true ->
  let id := prop (prop data "data") "id" in
  let name := if truthy TWITTER_USERNAME then TWITTER_USERNAME else JStr (u "user") in
  let url := if truthy id
             then JStr (u "https://twitter.com/" ++ js_toString name
                        ++ u "/status/" ++ js_toString id)
             else JNull in
  (exists k,
      run_sync (clock e) (post_tweet' req_body) w
        = (issue (Twitter (JObj [("text", prop req_body "tweet")]))
             (check_world (clock e) w), Suspended k) /\
      forall w1 : World,
        run_sync (clock e) (k (Resolved data)) w1
          = (with_tweetCount (tweetCount w1 + 1) w1,
             Done (json 200 (JObj [
               ("success", JBool true);
               ("tweetId", id);
               ("tweetUrl", url);
               ("rateLimit", JObj [
                  ("remaining", JNum (17 - (tweetCount w1 + 1)));
                  ("resetTime",
                   JStr (toISOString (lastResetTime w1 + 24 * 60 * 60 * 1000)))])])))) /\
  (upstream e (List.length (calls w)) = Resolved data ->
   let w' := fst (run e (post_tweet' req_body) w) in
   let res := snd (run e (post_tweet' req_body) w) in
   status res = 200 /\
   prop (body res) "success" = JBool true /\
   prop (body res) "tweetId" = id /\
   prop (body res) "tweetUrl" = url /\
   prop (prop (body res) "rateLimit") "remaining" = JNum (17 - tweetCount w') /\
   prop (prop (body res) "rateLimit") "resetTime"
     = JStr (toISOString (lastResetTime w' + 24 * 60 * 60 * 1000)) /\
   tweetCount w' = tweetCount (check_world (clock e) w) + 1 /\
   (0 <= tweetCount w -> 0 <= 17 - tweetCount w' <= 16)).
Proof.
  intros Htweet Hallowed _ _. cbv zeta. split.
  - unfold post_tweet. rewrite Htweet. cbn [negb].
    rewrite run_sync_bind, run_sync_checkRateLimit, Hallowed. cbn [negb].
    cbn [bind await run_sync]. eexists. split; [reflexivity |].
    intros w1. reflexivity.
  - intros Hup. rewrite (post_tweet_run e w req_body Htweet). cbv zeta.
    rewrite Hallowed, Hup. cbn [fst snd status body json].
    pose proof (allowed_leaves_room (clock e) w Hallowed) as Hroom.
    cbn [with_tweetCount issue tweetCount lastResetTime].
    do 7 (split; [reflexivity |]).
    intros Hcount. pose proof (check_world_count_nonneg (clock e) w Hcount). lia.
Qed.

Lemma check_result_room (clk : nat -> Z) (w : World) :
  remaining (check_result clk w) = Z.max 0 (17 - tweetCount (check_world clk w)).
Proof.
  unfold check_result, check_world.
  destruct (clk (reads w) - lastResetTime w >? RESET_PERIOD); [reflexivity |].
  destruct (Z.geb_spec (tweetCount w) TWEET_LIMIT) as [H | H];
    unfold TWEET_LIMIT in *; cbn [remaining tick tweetCount]; lia.
Qed.

(** A check inside the window only reads the clock. *)
Lemma check_within_window (clk : nat -> Z) (w : World) :
  clk (reads w) - lastResetTime w <= RESET_PERIOD ->
  check_world clk w = tick w /\
  remaining (check_result clk w) = Z.max 0 (17 - tweetCount w).
Proof.
  intros Hin. pose proof (check_result_room clk w) as Hroom. revert Hroom.
  unfold check_world.
  destruct (Z.gtb_spec (clk (reads w) - lastResetTime w) RESET_PERIOD); [lia |].
  intros ->. split; reflexivity.
Qed.

(** X3.  [GET /rate-limit] sends nothing upstream and answers 200 with a
    [remaining] between 0 and 17 (the count not being negative).  It is not a
    pure read: on an expired window it resets the count.  Asked again while the
    window it leaves has not expired, it gives the same answer and changes
    neither the count nor the window start. *)
Theorem rate_limit_answer_is_stable (e : Env) (w : World) :
  let w1 := fst (run e rate_limit' w) in
  let r1 := snd (run e rate_limit' w) in
  let w2 := fst (run e rate_limit' w1) in
  let r2 := snd (run e rate_limit' w1) in
  calls w1 = calls w /\
  status r1 = 200 /\
  (0 <= tweetCount w ->
     exists r, prop (body r1) "remaining" = JNum r /\ 0 <= r <= 17) /\
  (clock e (reads w) - lastResetTime w > 24 * 60 * 60 * 1000 -> tweetCount w1 = 0) /\
  (clock e (reads w1) - lastResetTime w1 <= 24 * 60 * 60 * 1000 ->
     r2 = r1 /\ tweetCount w2 = tweetCount w1 /\ lastResetTime w2 = lastResetTime w1).
Proof.
  cbv zeta. rewrite !rate_limit_run. cbn [fst snd status body json].
  split; [apply check_world_calls |]. split; [reflexivity |]. split; [| split].
  - intros Hcount. eexists. split; [reflexivity |].
    rewrite check_result_room.
    pose proof (check_world_count_nonneg (clock e) w Hcount). lia.
  - intros Hexp. unfold check_world.
    destruct (Z.gtb_spec (clock e (reads w) - lastResetTime w) RESET_PERIOD);
      [reflexivity | unfold RESET_PERIOD in *; lia].
  - intros Hin.
    destruct (check_within_window (clock e) (check_world (clock e) w) Hin)
      as (Hw & Hr).
    rewrite Hw, Hr, (check_result_room (clock e) w).
    split; [reflexivity |]. split; reflexivity.
Qed.

(** X4.  A single post that runs on its own, no other handler running
    between its check and its answer, and is answered 200 (the platform's
    identifier printing plainly): the quota named in its answer is the quota
    [GET /rate-limit] names when it is served next, as long as the window has
    not expired in between: same [remaining], same [resetTime]. *)
Theorem post_tweet_and_rate_limit_agree (e : Env) (w : World) (req_body : JsVal) :
  let w1 := fst (run e (post_tweet' req_body) w) in
  let posted := snd (run e (post_tweet' req_body) w) in
  let asked := snd (run e rate_limit' w1) in
  truthy (prop req_body "tweet") = true ->
  (forall data, upstream e (List.length (calls w)) = Resolved data ->
                plain (tweet_id data) = true) ->
  status posted = 200 ->
  clock e (reads w1) - lastResetTime w1 <= 24 * 60 * 60 * 1000 ->
  prop (prop (body posted) "rateLimit") "remaining" = prop (body asked) "remaining" /\
  prop (prop (body posted) "rateLimit") "resetTime" = prop (body asked) "resetTime".
Proof.
  cbv zeta. intros Htweet _. rewrite (post_tweet_run e w req_body Htweet). cbv zeta.
  destruct (allowed (check_result (clock e) w)) eqn:Hallowed;
    [| cbn; discriminate].
  destruct (upstream e (List.length (calls w))) as [data | err];
    [| cbn; discriminate].
  cbn [fst snd]. intros _ Hin. rewrite rate_limit_run. cbn [snd body json].
  destruct (check_within_window (clock e) _ Hin) as (Hw & Hr).
  rewrite Hw, Hr. pose proof (allowed_leaves_room (clock e) w Hallowed) as Hroom.
  cbn [with_tweetCount issue tick tweetCount lastResetTime].
  split; [| reflexivity].
  change (prop (prop (JObj ?f) "rateLimit") "remaining")
    with (JNum (TWEET_LIMIT - (tweetCount (check_world (clock e) w) + 1))).
  change (prop (JObj ?f) "remaining")
    with (JNum (Z.max 0 (17 - (tweetCount (check_world (clock e) w) + 1)))).
  unfold TWEET_LIMIT. f_equal. lia.
Qed.

(** X5.  Once the window has expired the quota is whole again, whatever the
    count was: a single post with a text goes out, and when it runs on its
    own, no other handler running between its check and its answer, and the
    platform accepts it (with an identifier that prints plainly), the answer
    is 200 with 16 remaining, the count is 1 and the new window starts at the
    second clock reading of the check. *)
Theorem expired_window_restores_quota (e : Env) (w : World) (req_body data : JsVal) :
  truthy (prop req_body "tweet") = true ->
  clock e (reads w) - lastResetTime w > 24 * 60 * 60 * 1000 ->
  upstream e (List.length (calls w)) = Resolved data ->
  plain (tweet_id data) = true ->
  let w' := fst (run e (post_tweet' req_body) w) in
  let res := snd (run e (post_tweet' req_body) w) in
  (exists k,
      run_sync (clock e) (post_tweet' req_body) w
        = (issue (Twitter (JObj [("text", prop req_body "tweet")]))
             (check_world (clock e) w), Suspended k)) /\
  status res = 200 /\
  prop (prop (body res) "rateLimit") "remaining" = JNum 16 /\
  tweetCount w' = 1 /\
  lastResetTime w' = clock e (S (reads w)) /\
  calls w' = calls w ++ [Twitter (JObj [("text", prop req_body "tweet")])].
Proof.
  intros Htweet Hexp Hup _. cbv zeta.
  assert (Hallowed : allowed (check_result (clock e) w) = true).
  { unfold check_result.
    destruct (Z.gtb_spec (clock e (reads w) - lastResetTime w) RESET_PERIOD);
      [reflexivity | unfold RESET_PERIOD in *; lia]. }
  split.
  { destruct (post_tweet_first_turn toISOString TWITTER_USERNAME (clock e) w req_body
                Htweet Hallowed) as (k & Hturn & _).
    exists k. exact Hturn. }
  rewrite (post_tweet_run e w req_body Htweet). cbv zeta.
  unfold check_result, check_world.
  destruct (Z.gtb_spec (clock e (reads w) - lastResetTime w) RESET_PERIOD);
    [| unfold RESET_PERIOD in *; lia].
  cbn [allowed]. rewrite Hup. repeat split.
Qed.




Lemma published_app (e : Env) (reqs reqs' : list Request) :
  forall base,
    published e base (reqs ++ reqs')
      = published e base reqs + published e (base + List.length reqs) reqs'.
Proof.
  induction reqs as [| req reqs IH]; intros base.
  - cbn. rewrite Nat.add_0_r. reflexivity.
  - cbn [app published List.length]. rewrite IH.
    replace (S base + List.length reqs)%nat with (base + S (List.length reqs))%nat
      by lia.
    lia.
Qed.

Lemma published_bounds (e : Env) (reqs : list Request) :
  forall base, 0 <= published e base reqs <= Z.of_nat (List.length reqs).
Proof.
  induction reqs as [| req reqs IH]; intros base; [cbn; lia |].
  cbn [published List.length]. specialize (IH (S base)).
  destruct (is_publish req && is_resolved (upstream e base)); lia.
Qed.

(** The thread loop against any upstream: it sends publish calls only, at most
    one per text, counts exactly the ones that resolve, and ends either with
    200 after as many resolved calls as there are texts or with 500 right
    after the first rejected one. *)
Lemma post_thread_loop_accounts (e : Env) (tweets : list JsVal) :
  forall (prev : JsVal) (results : list JsVal) (w : World),
    let w' := fst (run e (post_thread_loop' tweets prev results) w) in
    let res := snd (run e (post_thread_loop' tweets prev results) w) in
    exists new,
      calls w' = calls w ++ new /\
      Forall (fun req => is_publish req = true) new /\
      tweetCount w' = tweetCount w + published e (List.length (calls w)) new /\
      lastResetTime w' = lastResetTime w /\
      ((status res = 200 /\ List.length new = List.length tweets /\
        published e (List.length (calls w)) new = Z.of_nat (List.length tweets)) \/
       (status res = 500 /\ (1 <= List.length new <= List.length tweets)%nat /\
        published e (List.length (calls w)) new = Z.of_nat (List.length new) - 1)).
Proof.
  induction tweets as [| t rest IH]; intros prev results w; cbv zeta.
  - exists []. cbn. rewrite app_nil_r. repeat split; try lia; auto.
  - destruct (upstream e (List.length (calls w))) as [data | err] eqn:Hup.
    + rewrite (post_thread_loop_resolved toISOString TWITTER_USERNAME
                 e w t prev rest results data Hup).
      set (w1 := with_tweetCount (tweetCount w + 1)
                   (issue (Twitter (tweetData t prev)) w)).
      match goal with
      | |- context [run e (post_thread_loop' rest ?p ?r) w1] =>
          specialize (IH p r w1)
      end.
      cbv zeta in IH. destruct IH as (new & Hcalls & Hkind & Hcount & Hlast & Hend).
      assert (Hlen : List.length (calls w1) = S (List.length (calls w))).
      { unfold w1. apply calls_after_publish. }
      rewrite Hlen in *.
      exists (Twitter (tweetData t prev) :: new).
      assert (Hpub : published e (List.length (calls w))
                       (Twitter (tweetData t prev) :: new)
                     = 1 + published e (S (List.length (calls w))) new).
      { cbn [published is_publish andb]. rewrite Hup. reflexivity. }
      split. { rewrite Hcalls. unfold w1. cbn [with_tweetCount issue calls].
               rewrite <- app_assoc. reflexivity. }
      split; [constructor; [reflexivity | exact Hkind] |].
      split. { rewrite Hcount, Hpub. unfold w1. cbn [with_tweetCount tweetCount]. lia. }
      split; [rewrite Hlast; reflexivity |].
      rewrite Hpub. cbn [List.length].
      destruct Hend as [(Hst & Hn & Hp) | (Hst & Hn & Hp)];
        [left | right]; (split; [exact Hst |]); split; lia.
    + rewrite (post_thread_loop_rejected toISOString TWITTER_USERNAME
                 e w t prev rest results err Hup).
      exists [Twitter (tweetData t prev)]. cbn [fst snd issue calls tweetCount
        lastResetTime status json published is_publish andb List.length].
      rewrite Hup. cbn [is_resolved].
      split; [reflexivity |]. split; [constructor; [reflexivity | constructor] |].
      split; [lia |]. split; [reflexivity |]. right. repeat split; lia.
Qed.

(** X7.  A thread request that passes the limiter and runs on its own, no
    other handler running between its check and its answer, whatever the
    platform does (the identifiers it returns printing plainly): only publish
    calls go out, between 1 and [n] of them; the count rises by exactly the
    number of calls that resolved, never by a rejected one, and stays within
    17; the answer is 200 when all [n] calls went out and resolved, and 500
    when the last call sent was rejected, all calls before it having resolved
    and staying counted. *)
Theorem post_thread_counts_what_it_published (e : Env) (w : World)
    (req_body : JsVal) (first : JsVal) (more : list JsVal) :
  prop req_body "tweets" = JArr (first :: more) ->
  let n := List.length (first :: more) in
  allowed (check_result (clock e) w) = true ->
  remaining (check_result (clock e) w) >= Z.of_nat n ->
  (forall j data, upstream e j = Resolved data -> plain (tweet_id data) = true) ->
  let w' := fst (run e (post_thread' req_body) w) in
  let res := snd (run e (post_thread' req_body) w) in
  exists new,
    calls w' = calls w ++ new /\
    Forall (fun req => is_publish req = true) new /\
    (1 <= List.length new <= n)%nat /\
    tweetCount w'
      = tweetCount (check_world (clock e) w) + published e (List.length (calls w)) new /\
    ((status res = 200 /\ List.length new = n /\
      published e (List.length (calls w)) new = Z.of_nat n) \/
     (status res = 500 /\
      published e (List.length (calls w)) new = Z.of_nat (List.length new) - 1)) /\
    tweetCount w' <= 17.
Proof.
  intros Htweets n Hallowed Hrem _. cbv zeta.
  rewrite (post_thread_run toISOString TWITTER_USERNAME e w req_body first more Htweets).
  2:{ rewrite Hallowed. cbn [negb orb]. apply Z.ltb_ge. fold n. lia. }
  destruct (post_thread_loop_accounts e (first :: more) JNull []
              (check_world (clock e) w))
    as (new & Hcalls & Hkind & Hcount & _ & Hend).
  rewrite check_world_calls in *. fold n in Hend.
  exists new. split; [exact Hcalls |]. split; [exact Hkind |].
  pose proof (published_bounds e new (List.length (calls w))) as Hb.
  rewrite check_result_room in Hrem.
  assert (Hn : (1 <= n)%nat) by (unfold n; cbn; lia).
  split; [destruct Hend as [(_ & H & _) | (_ & H & _)]; lia |].
  split; [exact Hcount |].
  split; [destruct Hend as [(Hst & H & Hp) | (Hst & H & Hp)];
          [left; repeat split; assumption | right; split; assumption] |].
  destruct Hend as [(_ & H & _) | (_ & H & _)]; lia.
Qed.

(** The answer of the thread loop when every call resolves. *)
Lemma post_thread_loop_answer (e : Env) (tweets : list JsVal) :
  forall (d : nat -> JsVal) (prev : JsVal) (results : list JsVal) (w : World),
    (forall j, (j < List.length tweets)%nat ->
               upstream e (List.length (calls w) + j) = Resolved (d j)) ->
    exists entries,
      snd (run e (post_thread_loop' tweets prev results) w)
        = json 200 (JObj [
            ("success", JBool true);
            ("threadResults", JArr (results ++ entries));
            ("rateLimit", JObj [
               ("remaining",
                JNum (TWEET_LIMIT - (tweetCount w + Z.of_nat (List.length tweets))));
               ("resetTime", resetTime toISOString (lastResetTime w))])]) /\
      List.length entries = List.length tweets /\
      forall i t, nth_error tweets i = Some t ->
        nth_error entries i = Some (thread_result TWITTER_USERNAME t (d i)).
Proof.
  induction tweets as [| t rest IH]; intros d prev results w Hup.
  - exists []. rewrite app_nil_r.
    cbn [post_thread_loop bind get_tweetCount get_lastResetTime run snd
         List.length Z.of_nat]. rewrite Z.add_0_r.
    repeat split. intros [| i] t0 H; discriminate H.
  - assert (H0 : upstream e (List.length (calls w)) = Resolved (d O)).
    { rewrite <- (Hup O); [f_equal; lia | cbn; lia]. }
    rewrite (post_thread_loop_resolved toISOString TWITTER_USERNAME
               e w t prev rest results (d O) H0).
    set (w1 := with_tweetCount (tweetCount w + 1)
                 (issue (Twitter (tweetData t prev)) w)).
    match goal with
    | |- context [run e (post_thread_loop' rest ?p ?r) w1] =>
        destruct (IH (fun j => d (S j)) p r w1) as (entries & Hres & Hlen & Hnth)
    end.
    { intros j Hj. unfold w1. rewrite calls_after_publish.
      rewrite <- (Hup (S j)); [f_equal; lia | cbn; lia]. }
    exists (thread_result TWITTER_USERNAME t (d O) :: entries).
    split.
    { rewrite Hres. unfold w1, thread_result.
      cbn [with_tweetCount issue tweetCount lastResetTime List.length].
      rewrite <- app_assoc. cbn [app].
      replace (tweetCount w + 1 + Z.of_nat (List.length rest))
        with (tweetCount w + Z.of_nat (S (List.length rest))) by lia.
      reflexivity. }
    split; [cbn [List.length]; rewrite Hlen; reflexivity |].
    intros [| i] t0 Ht0.
    + cbn in Ht0. injection Ht0 as <-. reflexivity.
    + cbn [nth_error] in Ht0 |- *. apply Hnth. exact Ht0.
Qed.

(** X8.  A thread request that passes the limiter, runs on its own (no other
    handler running between its check and its answer) and whose [n] calls all
    resolve, with identifiers that print plainly, is answered 200 with
    [success] and one entry of [threadResults] per text, in order: the
    identifier that text's call returned, the URL built from it, and the
    text.  The count has risen by [n], and the reported [remaining] is 17
    minus the new count and is not negative. *)
Theorem post_thread_success_answer (e : Env) (w : World) (req_body : JsVal)
    (first : JsVal) (more : list JsVal) (d : nat -> JsVal) :
  prop req_body "tweets" = JArr (first :: more) ->
  let tweets := first :: more in
  let n := List.length tweets in
  allowed (check_result (clock e) w) = true ->
  remaining (check_result (clock e) w) >= Z.of_nat n ->
  (forall j, (j < n)%nat ->
             upstream e (List.length (calls w) + j) = Resolved (d j) /\
             plain (tweet_id (d j)) = true) ->
  plain TWITTER_USERNAME = true ->
  let w' := fst (run e (post_thread' req_body) w) in
  let res := snd (run e (post_thread' req_body) w) in
  status res = 200 /\
  prop (body res) "success" = JBool true /\
  (exists entries,
      prop (body res) "threadResults" = JArr entries /\
      List.length entries = n /\
      forall i t, nth_error tweets i = Some t ->
        nth_error entries i
          = Some (JObj [("tweetId", prop (prop (d i) "data") "id");
                        ("tweetUrl",
                         tweet_url TWITTER_USERNAME (prop (prop (d i) "data") "id"));
                        ("text", t)])) /\
  tweetCount w' = tweetCount (check_world (clock e) w) + Z.of_nat n /\
  prop (prop (body res) "rateLimit") "remaining" = JNum (17 - tweetCount w') /\
  0 <= 17 - tweetCount w'.
Proof.
  intros Htweets tweets n Hallowed Hrem Hup' _. cbv zeta.
  assert (Hup : forall j, (j < n)%nat ->
                  upstream e (List.length (calls w) + j) = Resolved (d j))
    by (intros j Hj; apply Hup'; exact Hj).
  rewrite (post_thread_run toISOString TWITTER_USERNAME e w req_body first more Htweets).
  2:{ rewrite Hallowed. cbn [negb orb]. apply Z.ltb_ge. fold tweets n. lia. }
  fold tweets.
  destruct (post_thread_loop_answer e tweets d JNull [] (check_world (clock e) w))
    as (entries & Hres & Hlen & Hnth).
  { intros j Hj. rewrite check_world_calls. apply Hup. exact Hj. }
  destruct (post_thread_loop_chain toISOString TWITTER_USERNAME e tweets d JNull []
              (check_world (clock e) w))
    as (_ & Hcount & _).
  { intros j Hj. rewrite check_world_calls. apply Hup. exact Hj. }
  rewrite Hres, Hcount. cbn [status body json app]. fold n.
  split; [reflexivity |]. split; [reflexivity |].
  split; [exists entries; split; [reflexivity | split; [exact Hlen | exact Hnth]] |].
  split; [reflexivity |]. rewrite check_result_room in Hrem.
  assert (Hn : (1 <= n)%nat) by (unfold n, tweets; cbn; lia).
  split; [unfold TWEET_LIMIT; reflexivity | lia].
Qed.

Lemma published_none (e : Env) (reqs : list Request) :
  Forall (fun req => is_publish req = false) reqs ->
  forall base, published e base reqs = 0.
Proof.
  induction 1 as [| req reqs Hreq _ IH]; intros base; [reflexivity |].
  cbn [published]. rewrite Hreq, IH. reflexivity.
Qed.

(** The thread-generation loop leaves the limiter and the clock alone and
    sends generation calls only. *)
Lemma generate_thread_loop_world (e : Env) (topic language : JsVal) (todo : nat) :
  forall (i : Z) (threadTweets : list JsVal) (w : World),
    let w' := fst (run e (generate_thread_loop topic language i todo threadTweets) w) in
    tweetCount w' = tweetCount w /\
    lastResetTime w' = lastResetTime w /\
    reads w' = reads w /\
    exists new,
      calls w' = calls w ++ new /\ Forall (fun req => is_publish req = false) new.
Proof.
  induction todo as [| todo IH]; intros i threadTweets w; cbv zeta.
  - cbn. repeat split. exists []. rewrite app_nil_r. split; constructor.
  - cbn [generate_thread_loop bind await run].
    set (req := gemini_request (getThreadPromptByLanguage topic (JNum i) language)).
    assert (Hone : exists new,
               calls (issue req w) = calls w ++ new /\
               Forall (fun q => is_publish q = false) new).
    { exists [req]. split; [reflexivity | constructor; [reflexivity | constructor]]. }
    destruct (upstream e (List.length (calls w))) as [data | err];
      [destruct (cleaned data) as [text |] |]; cbn [run fst];
      try (repeat split; exact Hone).
    specialize (IH (i + 1) (threadTweets ++ [JStr text]) (issue req w)).
    cbv zeta in IH. destruct IH as (Hc & Hl & Hr & new & Hcalls & Hkind).
    split; [exact Hc |]. split; [exact Hl |]. split; [exact Hr |].
    exists (req :: new). split.
    + rewrite Hcalls. cbn [issue calls]. rewrite <- app_assoc. reflexivity.
    + constructor; [reflexivity | exact Hkind].
Qed.

Lemma generate_tweet_world (e : Env) (req_body : JsVal) (w : World) :
  let w' := fst (run e (generate_tweet req_body) w) in
  tweetCount w' = tweetCount w /\
  lastResetTime w' = lastResetTime w /\
  reads w' = reads w /\
  exists new,
    calls w' = calls w ++ new /\ Forall (fun req => is_publish req = false) new.
Proof.
  cbv zeta. unfold generate_tweet. destruct (negb (truthy (prop req_body "topic"))).
  { cbn. repeat split. exists []. rewrite app_nil_r. split; constructor. }
  cbn [bind await run].
  assert (Hone : exists new,
    calls (issue (gemini_request
                    (getPromptByLanguage (prop req_body "topic")
                       (field_or req_body "language" (JStr (u "english"))))) w)
      = calls w ++ new /\ Forall (fun q => is_publish q = false) new).
  { eexists. split; [reflexivity | constructor; [reflexivity | constructor]]. }
  destruct (upstream e (List.length (calls w))) as [data | err];
    [destruct (cleaned data) |]; cbn [run fst]; repeat split; exact Hone.
Qed.

Lemma generate_thread_world (e : Env) (req_body : JsVal) (w : World) :
  let w' := fst (run e (generate_thread req_body) w) in
  tweetCount w' = tweetCount w /\
  lastResetTime w' = lastResetTime w /\
  reads w' = reads w /\
  exists new,
    calls w' = calls w ++ new /\ Forall (fun req => is_publish req = false) new.
Proof.
  cbv zeta. unfold generate_thread.
  destruct (negb (truthy (prop req_body "topic"))).
  { cbn. repeat split. exists []. rewrite app_nil_r. split; constructor. }
  apply generate_thread_loop_world.
Qed.

(** X9.  Each route talks to its own upstream only, in any state and whatever
    the upstreams answer.  The two generation routes send generation calls
    only and leave count, window start and clock untouched; the two publishing
    routes send publish calls only; [GET /rate-limit] sends nothing;
    [GET /status] answers 200 with status Online and changes nothing at all. *)
Theorem each_route_keeps_to_its_upstream (e : Env) (r : Route) (w : World) :
  let w' := fst (run e (handler' r) w) in
  exists new,
    calls w' = calls w ++ new /\
    match r with
    | POST_generate_tweet _ | POST_generate_thread _ =>
        Forall (fun req => is_publish req = false) new /\
        tweetCount w' = tweetCount w /\
        lastResetTime w' = lastResetTime w /\
        reads w' = reads w
    | POST_post_tweet _ =>
        Forall (fun req => is_publish req = true) new /\ (List.length new <= 1)%nat
    | POST_post_thread _ =>
        Forall (fun req => is_publish req = true) new
    | GET_rate_limit => new = []
    | GET_status =>
        new = [] /\ w' = w /\
        snd (run e (handler' r) w) = json 200 (JObj [("status", JStr (u "Online"))])
    end.
Proof.
  cbv zeta. destruct r as [b | b | b | b | |]; cbn [handler].
  - destruct (generate_tweet_world e b w) as (Hc & Hl & Hr & new & Hcalls & Hkind).
    exists new. repeat split; assumption.
  - destruct (generate_thread_world e b w) as (Hc & Hl & Hr & new & Hcalls & Hkind).
    exists new. repeat split; assumption.
  - destruct (truthy (prop b "tweet")) eqn:Htweet.
    + rewrite (post_tweet_run e w b Htweet). cbv zeta.
      destruct (allowed (check_result (clock e) w)).
      * exists [Twitter (JObj [("text", prop b "tweet")])].
        destruct (upstream e (List.length (calls w))); cbn [fst issue
          with_tweetCount calls]; rewrite check_world_calls;
          repeat split; try (constructor; [reflexivity | constructor]); cbn; lia.
      * exists []. cbn [fst]. rewrite check_world_calls, app_nil_r.
        repeat split; [constructor | cbn; lia].
    + unfold post_tweet. rewrite Htweet. exists []. cbn. rewrite app_nil_r.
      repeat split; [constructor | lia].
  - unfold post_thread.
    destruct (prop b "tweets") as [| | ? | ? | ? | [| first more] | ?];
      try (exists []; cbn; rewrite app_nil_r; split; [reflexivity | constructor]).
    rewrite run_bind, run_checkRateLimit. cbn [fst snd].
    destruct (negb (allowed (check_result (clock e) w))
              || (remaining (check_result (clock e) w)
                  <? Z.of_nat (List.length (first :: more)))).
    + exists []. cbn [bind get_lastResetTime run fst].
      rewrite check_world_calls, app_nil_r. split; [reflexivity | constructor].
    + destruct (post_thread_loop_accounts e (first :: more) JNull []
                  (check_world (clock e) w))
        as (new & Hcalls & Hkind & _).
      exists new. rewrite check_world_calls in Hcalls. split; assumption.
  - exists []. rewrite rate_limit_run. cbn [fst].
    rewrite check_world_calls, app_nil_r. split; reflexivity.
  - exists []. cbn. rewrite app_nil_r. repeat split.
Qed.

(** Inside the window every handler raises the count by the number of publish
    calls of its own that resolved, and leaves the window start alone. *)
Lemma handler_accounts (e : Env) (r : Route) (w : World) :
  clock e (reads w) - lastResetTime w <= RESET_PERIOD ->
  let w' := fst (run e (handler' r) w) in
  exists new,
    calls w' = calls w ++ new /\
    tweetCount w' = tweetCount w + published e (List.length (calls w)) new /\
    lastResetTime w' = lastResetTime w.
Proof.
  intros Hin. cbv zeta.
  destruct (check_within_window (clock e) w Hin) as (Hw & _).
  destruct r as [b | b | b | b | |].
  - destruct (generate_tweet_world e b w) as (Hc & Hl & _ & new & Hcalls & Hkind).
    exists new. rewrite (published_none e new Hkind). repeat split; try assumption.
    cbn [handler]. lia.
  - destruct (generate_thread_world e b w) as (Hc & Hl & _ & new & Hcalls & Hkind).
    exists new. rewrite (published_none e new Hkind). repeat split; try assumption.
    cbn [handler]. lia.
  - cbn [handler]. destruct (truthy (prop b "tweet")) eqn:Htweet.
    + rewrite (post_tweet_run e w b Htweet). cbv zeta. rewrite Hw.
      destruct (allowed (check_result (clock e) w)).
      * exists [Twitter (JObj [("text", prop b "tweet")])].
        cbn [published is_publish andb].
        destruct (upstream e (List.length (calls w)));
          cbn [fst issue with_tweetCount tick calls tweetCount lastResetTime
               is_resolved]; repeat split; lia.
      * exists []. cbn. rewrite app_nil_r. repeat split; lia.
    + unfold post_tweet. rewrite Htweet. exists []. cbn. rewrite app_nil_r.
      repeat split; lia.
  - cbn [handler]. unfold post_thread.
    destruct (prop b "tweets") as [| | ? | ? | ? | [| first more] | ?];
      try (exists []; cbn; rewrite app_nil_r; repeat split; lia).
    rewrite run_bind, run_checkRateLimit. cbn [fst snd]. rewrite Hw.
    destruct (negb (allowed (check_result (clock e) w))
              || (remaining (check_result (clock e) w)
                  <? Z.of_nat (List.length (first :: more)))).
    + exists []. cbn. rewrite app_nil_r. repeat split; lia.
    + destruct (post_thread_loop_accounts e (first :: more) JNull [] (tick w))
        as (new & Hcalls & _ & Hcount & Hlast & _).
      exists new. cbn [tick calls tweetCount lastResetTime] in *.
      repeat split; assumption.
  - cbn [handler]. rewrite rate_limit_run, Hw. exists []. cbn.
    rewrite app_nil_r. repeat split; lia.
  - exists []. cbn. rewrite app_nil_r. repeat split; lia.
Qed.

Lemma published_log (e : Env) (rs : list Route) :
  (forall n, clock e n - clock e 0%nat <= RESET_PERIOD) ->
  forall w : World,
    lastResetTime w = clock e 0%nat ->
    tweetCount w = published e 0 (calls w) ->
    let w' := fst (serve' e rs w) in
    lastResetTime w' = clock e 0%nat /\
    tweetCount w' = published e 0 (calls w').
Proof.
  intros Hclock. induction rs as [| r rs IH]; intros w Hlast Hcount; cbv zeta.
  - split; assumption.
  - cbn [serve].
    destruct (handler_accounts e r w) as (new & Hcalls & Hc & Hl).
    { rewrite Hlast. apply Hclock. }
    destruct (run e (handler' r) w) as (w1, res). cbn [fst] in *.
    specialize (IH w1). cbv zeta in IH.
    destruct (serve' e rs w1) as (w2, out). cbn [fst] in *.
    apply IH; [congruence |].
    rewrite Hc, Hcalls, published_app, Hcount. cbn [Nat.add]. reflexivity.
Qed.

(** X10.  Requests of any kind served one after another on a fresh process,
    within one window: at every point the count is the number of publish calls
    in the log that the platform resolved, no more and no fewer, and the window
    start is still the one read at start-up. *)
Theorem count_is_number_of_resolved_publishes (e : Env) (rs : list Route) :
  (forall n, clock e n - clock e 0%nat <= 24 * 60 * 60 * 1000) ->
  let w' := fst (serve' e rs (boot (clock e))) in
  tweetCount w' = published e 0 (calls w') /\
  lastResetTime w' = clock e 0%nat.
Proof.
  intros Hclock. cbv zeta.
  destruct (published_log e rs Hclock (boot (clock e))) as (Hl & Hc);
    [reflexivity | reflexivity |].
  split; assumption.
Qed.

Lemma generate_thread_loop_status (e : Env) (topic language : JsVal) (todo : nat) :
  forall (i : Z) (threadTweets : list JsVal) (w : World),
    let res := snd (run e (generate_thread_loop topic language i todo threadTweets) w) in
    status res = 200 \/ status res = 500.
Proof.
  induction todo as [| todo IH]; intros i threadTweets w; cbv zeta; [left; reflexivity |].
  cbn [generate_thread_loop bind await run].
  destruct (upstream e (List.length (calls w))) as [data | err];
    [destruct (cleaned data) as [text |] |]; try (right; reflexivity).
  apply IH.
Qed.

(** X11.  A request that comes with a body (anything but [undefined] and
    [null], on which the destructuring of [req.body] throws) and lacks what
    its route requires (no or an empty [topic] for the generation routes, no
    or an empty [tweet] for the single post, a [tweets] that is missing, not an
    array or empty for the thread) is answered 400 with the route's message
    before anything else happens: no clock reading, no limiter check, no
    upstream call, the state exactly as it was.  A request that has what its
    route requires is never answered 400. *)
Theorem status_400_means_malformed (e : Env) (r : Route) (w : World) :
  (has_body r = true -> well_formed r = false ->
     run_sync (clock e) (handler' r) w
       = (w, Done (json 400 (JObj [("error", JStr (complaint r))]))) /\
     run e (handler' r) w = (w, json 400 (JObj [("error", JStr (complaint r))]))) /\
  (well_formed r = true -> status (snd (run e (handler' r) w)) <> 400).
Proof.
  split.
  - intros _ Hbad. destruct r as [b | b | b | b | |]; cbn [well_formed] in Hbad;
      try discriminate Hbad; cbn [handler complaint].
    + unfold generate_tweet. rewrite Hbad. split; reflexivity.
    + unfold generate_thread. rewrite Hbad. split; reflexivity.
    + unfold post_tweet. rewrite Hbad. split; reflexivity.
    + unfold post_thread.
      destruct (prop b "tweets") as [| | ? | ? | ? | [| first more] | ?];
        try discriminate Hbad; split; reflexivity.
  - intros Hok. destruct r as [b | b | b | b | |]; cbn [well_formed] in Hok;
      cbn [handler].
    + unfold generate_tweet. rewrite Hok. cbn [negb bind await run].
      destruct (upstream e (List.length (calls w))) as [data | err];
        [destruct (cleaned data) |]; cbn; discriminate.
    + unfold generate_thread. rewrite Hok. cbn [negb].
      destruct (generate_thread_loop_status e (prop b "topic")
                  (field_or b "language" (JStr (u "english"))) (part_total b) 1 [] w)
        as [-> | ->]; discriminate.
    + rewrite (post_tweet_run e w b Hok). cbv zeta.
      destruct (allowed (check_result (clock e) w));
        [destruct (upstream e (List.length (calls w))) |]; cbn; discriminate.
    + unfold post_thread.
      destruct (prop b "tweets") as [| | ? | ? | ? | [| first more] | ?];
        try discriminate Hok.
      rewrite run_bind, run_checkRateLimit. cbn [fst snd].
      destruct (negb (allowed (check_result (clock e) w))
                || (remaining (check_result (clock e) w)
                    <? Z.of_nat (List.length (first :: more)))).
      * cbn. discriminate.
      * destruct (post_thread_loop_accounts e (first :: more) JNull []
                    (check_world (clock e) w))
          as (new & _ & _ & _ & _ & [(-> & _) | (-> & _)]); discriminate.
    + rewrite rate_limit_run. cbn. discriminate.
    + cbn. discriminate.
Qed.

End Routes.

(** *** Generating text *)

(** X12.  [POST /generate-tweet] with a topic sends exactly one generation
    call, carrying the prompt for the topic in the requested language (English
    when none is named), the topic and the language being values that print
    plainly and the language no name that every object inherits.  When the
    call resolves with a non-empty string at
    [candidates[0].content.parts[0].text] the answer is 200 with that text
    sanitised; when it resolves with anything else there, or is rejected, the
    answer is the same 500 with a fixed message that passes nothing of the
    upstream error on. *)
Theorem generate_tweet_answer (e : Env) (w : World) (req_body : JsVal) :
  truthy (prop req_body "topic") = true ->
  plain (prop req_body "topic") = true ->
  plain (field_or req_body "language" (JStr (u "english"))) = true ->
  inherited (field_or req_body "language" (JStr (u "english"))) = false ->
  let w' := fst (run e (generate_tweet req_body) w) in
  let res := snd (run e (generate_tweet req_body) w) in
  let failed := json 500 (JObj [("error", JStr (u "Failed to generate tweet content"))]) in
  calls w'
    = calls w
      ++ [gemini_request
            (getPromptByLanguage (prop req_body "topic")
               (match prop req_body "language" with
                | JUndefined => JStr (u "english")
                | language => language
                end))] /\
  (forall data text,
      upstream e (List.length (calls w)) = Resolved data ->
      answer_text data = JStr text -> text <> [] ->
      res = json 200 (JObj [("tweet", JStr (cleanTweet text))])) /\
  (forall data,
      upstream e (List.length (calls w)) = Resolved data ->
      (forall text, answer_text data = JStr text -> text = []) ->
      res = failed) /\
  (forall err, upstream e (List.length (calls w)) = Rejected err -> res = failed).
Proof.
  intros Htopic _ _ _. cbv zeta. unfold generate_tweet. rewrite Htopic.
  cbn [negb bind await run]. split.
  - destruct (upstream e (List.length (calls w))) as [data | err];
      [destruct (cleaned data) |]; reflexivity.
  - split; [| split].
    + intros data text -> Htext Hne. rewrite cleaned_spec, Htext.
      destruct text as [| c s]; [contradiction | reflexivity].
    + intros data -> Hnone. rewrite cleaned_spec.
      destruct (answer_text data) as [| | ? | ? | [| c s] | ? | ?]; try reflexivity.
      discriminate (Hnone (c :: s) eq_refl).
    + intros err ->. reflexivity.
Qed.

(** X13.  [POST /generate-thread] with a topic asks for the parts one call at a
    time and gives all of them or none, for a [partCount] that is a number or
    absent and a topic and language that print plainly.  When each of the [n]
    calls brings a text, the answer is 200 with the [n] sanitised texts in
    order ([n] being [partCount], 3 when the body names none; none at all, and
    no call, when it is 0 or less).  When call [k + 1] is the first to be rejected or to bring
    no text, no further call is made and the answer is a 500 with a fixed
    message and no [tweets]: the [k] texts already generated are dropped. *)
Theorem generate_thread_all_or_nothing (e : Env) (w : World) (req_body : JsVal) :
  truthy (prop req_body "topic") = true ->
  counted req_body = true ->
  plain (prop req_body "topic") = true ->
  plain (field_or req_body "language" (JStr (u "english"))) = true ->
  let n := part_total req_body in
  let base := List.length (calls w) in
  let w' := fst (run e (generate_thread req_body) w) in
  let res := snd (run e (generate_thread req_body) w) in
  (forall text : nat -> jstr,
      (forall j, (j < n)%nat -> brings e (base + j) (text j)) ->
      res = json 200 (JObj [("tweets",
                             JArr (map (fun j => JStr (cleanTweet (text j))) (seq 0 n)))]) /\
      List.length (calls w') = (base + n)%nat) /\
  (forall k : nat,
      (k < n)%nat ->
      (forall j, (j < k)%nat -> exists text, brings e (base + j) text) ->
      brings_nothing e (base + k) ->
      res = json 500 (JObj [("error", JStr (u "Failed to generate thread content"))]) /\
      prop (body res) "tweets" = JUndefined /\
      List.length (calls w') = (base + S k)%nat).
Proof.
  intros Htopic _ _ _. cbv zeta. unfold generate_thread. rewrite Htopic. cbn [negb].
  split.
  - intros text Hall.
    destruct (generate_thread_loop_all e (prop req_body "topic")
                (field_or req_body "language" (JStr (u "english")))
                (part_total req_body) 1 [] w (fun j => cleanTweet (text j)))
      as (Hres & Hlen).
    { intros j Hj. destruct (Hall j Hj) as (data & Hup & Htext & Hne).
      exists data. split; [exact Hup | apply cleaned_some; assumption]. }
    split; [exact Hres | exact Hlen].
  - intros k Hk Hbefore Hfail.
    destruct (generate_thread_loop_stops e (prop req_body "topic")
                (field_or req_body "language" (JStr (u "english")))
                (part_total req_body) k 1 [] w Hk)
      as (Hres & Hlen).
    { intros j Hj. destruct (Hbefore j Hj) as (text & data & Hup & Htext & Hne).
      exists data, (cleanTweet text). split; [exact Hup |].
      apply cleaned_some; assumption. }
    { exact Hfail. }
    rewrite Hres. split; [reflexivity |]. split; [reflexivity | exact Hlen].
Qed.

(** *** The single-post prompt and the fallback to English *)

Lemma Contains_sooner (s t r : jstr) : Contains s t -> Contains s (t ++ r).
Proof.
  intros (pre & post & ->). exists pre, (post ++ r). rewrite <- !app_assoc.
  reflexivity.
Qed.



(** X14.  The single-post prompt, for any topic and language that print
    plainly, the language being no name that every object inherits: it
    carries the topic as written and the instruction to stay under 280
    characters, whichever template is chosen. *)
Theorem getPromptByLanguage_carries_topic (topic language : JsVal) :
  plain topic = true ->
  plain language = true ->
  inherited language = false ->
  Contains (js_toString topic) (getPromptByLanguage topic language) /\
  Contains (u "280") (getPromptByLanguage topic language).
Proof.
  intros _ _ _. unfold getPromptByLanguage, select_prompt. cbn [own_property].
  destruct (jstr_eqb (u "english") (js_toString language));
    [| destruct (jstr_eqb (u "hindi") (js_toString language));
       [| destruct (jstr_eqb (u "hinglish") (js_toString language))]].
  - split.
    + apply Contains_later, Contains_here.
    + do 4 apply Contains_later. apply Contains_sooner.
      apply contains_spec. vm_compute. reflexivity.
  - split.
    + apply Contains_here.
    + do 3 apply Contains_later. apply Contains_sooner.
      apply contains_spec. vm_compute. reflexivity.
  - split.
    + apply Contains_here.
    + do 3 apply Contains_later. apply Contains_sooner.
      apply contains_spec. vm_compute. reflexivity.
  - split.
    + apply Contains_later, Contains_here.
    + do 4 apply Contains_later. apply Contains_sooner.
      apply contains_spec. vm_compute. reflexivity.
Qed.


(** *** What sanitising can and cannot do *)

Lemma strip_trailing_quote_within (s : jstr) :
  exists b, s = strip_trailing_quote s ++ b /\ (List.length b <= 1)%nat.
Proof.
  induction s as [| a s' _] using rev_ind.
  - exists []. split; [reflexivity | cbn; lia].
  - rewrite strip_trailing_quote_snoc. destruct (is_quote a).
    + exists [a]. split; [reflexivity | cbn; lia].
    + exists []. rewrite app_nil_r. split; [reflexivity | cbn; lia].
Qed.

Lemma replace_quotes_within (s : jstr) :
  exists a b,
    s = a ++ replace_quotes s ++ b /\
    (List.length a <= 1)%nat /\ (List.length b <= 1)%nat.
Proof.
  unfold replace_quotes.
  destruct (strip_trailing_quote_within (strip_leading_quote s)) as (b & Hb & Hlen).
  destruct s as [| c r].
  - exists [], b. cbn [app]. split; [exact Hb | split; [cbn; lia | exact Hlen]].
  - cbn [strip_leading_quote] in *. destruct (is_quote c).
    + exists [c], b. cbn [app]. split; [f_equal; exact Hb | split; [cbn; lia | exact Hlen]].
    + exists [], b. cbn [app]. split; [exact Hb | split; [cbn; lia | exact Hlen]].
Qed.

(** X16.  Whatever the text, what [cleanTweet] returns is a contiguous piece of
    it, obtained by dropping at most one code unit and then white space at each
    end; it neither starts nor ends with white space, and nothing inside it is
    altered. *)
Theorem cleanTweet_returns_a_trimmed_piece (tweet : jstr) :
  (exists pre post, tweet = pre ++ cleanTweet tweet ++ post) /\
  (List.length (cleanTweet tweet) <= List.length tweet)%nat /\
  (forall c r, cleanTweet tweet = c :: r -> is_space c = false) /\
  (forall r c, cleanTweet tweet = r ++ [c] -> is_space c = false).
Proof.
  unfold cleanTweet.
  destruct (replace_quotes_within tweet) as (a & b & Hq & _ & _).
  destruct (trim_spec (replace_quotes tweet)) as (pre & post & Ht & _ & _ & Hhead & Hlast).
  assert (Hpiece : tweet = (a ++ pre) ++ trim (replace_quotes tweet) ++ (post ++ b)).
  { rewrite Hq at 1. rewrite Ht at 1. rewrite <- !app_assoc. reflexivity. }
  split; [exists (a ++ pre), (post ++ b); exact Hpiece |].
  split; [| split; [exact Hhead | exact Hlast]].
  rewrite Hpiece at 2. rewrite !length_app. lia.
Qed.





(** *** The earlier variant against the later one *)

(** X18.  The rate limiter only gates.  Whenever it allows, the limited
    single-post handler sends the very request the earlier, unlimited handler
    sends and answers with the same status, [success], [tweetId], [tweetUrl],
    [error] and [details]; the later answer only adds [rateLimit].  The earlier
    handler never reads the clock, never touches the count and, given a text,
    always sends its call. *)
Theorem limiter_only_gates (toISOString : Z -> jstr) (TWITTER_USERNAME : JsVal)
    (e : Env) (w : World) (req_body : JsVal) :
  truthy (prop req_body "tweet") = true ->
  let ran := run e (IndexJs.post_tweet TWITTER_USERNAME req_body) w in
  let ran' := run e (post_tweet toISOString TWITTER_USERNAME req_body) w in
  fst ran = issue (Twitter (JObj [("text", prop req_body "tweet")])) w /\
  (status (snd ran) = 200 \/ status (snd ran) = 500) /\
  prop (body (snd ran)) "rateLimit" = JUndefined /\
  (allowed (check_result (clock e) w) = true ->
     calls (fst ran') = calls (fst ran) /\
     status (snd ran') = status (snd ran) /\
     forall key, key <> "rateLimit" ->
                 prop (body (snd ran')) key = prop (body (snd ran)) key).
Proof.
  intros Htweet. cbv zeta.
  rewrite (post_tweet_run toISOString TWITTER_USERNAME e w req_body Htweet).
  cbv zeta. unfold IndexJs.post_tweet. rewrite Htweet. cbn [negb bind await run].
  destruct (upstream e (List.length (calls w))) as [data | err];
    cbn [run fst snd status body json].
  - split; [reflexivity |]. split; [left; reflexivity |]. split; [reflexivity |].
    intros ->. cbn [fst snd status body json with_tweetCount issue calls].
    rewrite check_world_calls. split; [reflexivity |]. split; [reflexivity |].
    intros key Hkey. cbn [prop assoc].
    destruct (String.eqb "success" key); [reflexivity |].
    destruct (String.eqb "tweetId" key); [reflexivity |].
    destruct (String.eqb "tweetUrl" key); [reflexivity |].
    destruct (String.eqb_spec "rateLimit" key) as [<- | _];
      [contradiction | reflexivity].
  - split; [reflexivity |]. split; [right; reflexivity |]. split; [reflexivity |].
    intros ->. cbn [fst snd status body json issue calls].
    rewrite check_world_calls. repeat split.
Qed.

(** X19.  The earlier generation route differs from the later one in its
    prompt only, for a topic and a language that print plainly: it sends one
    fixed English prompt, which carries the topic and pays no regard to a
    [language] in the body, and for the same upstream outcome it gives
    exactly the answer the later route gives. *)
Theorem earlier_generate_tweet_differs_in_prompt_only (e : Env) (w : World)
    (req_body : JsVal) :
  truthy (prop req_body "topic") = true ->
  plain (prop req_body "topic") = true ->
  plain (field_or req_body "language" (JStr (u "english"))) = true ->
  calls (fst (run e (IndexJs.generate_tweet req_body) w))
    = calls w ++ [gemini_request (IndexJs.prompt (prop req_body "topic"))] /\
  Contains (js_toString (prop req_body "topic")) (IndexJs.prompt (prop req_body "topic")) /\
  Contains (u "280") (IndexJs.prompt (prop req_body "topic")) /\
  snd (run e (IndexJs.generate_tweet req_body) w)
    = snd (run e (generate_tweet req_body) w).
Proof.
  intros Htopic _ _. unfold IndexJs.generate_tweet, generate_tweet. rewrite Htopic.
  cbn [negb bind await run]. split; [| split; [| split]].
  - destruct (upstream e (List.length (calls w))) as [data | err];
      [destruct (cleaned data) |]; reflexivity.
  - unfold IndexJs.prompt. apply Contains_later, Contains_here.
  - unfold IndexJs.prompt. do 4 apply Contains_later. apply Contains_sooner.
    apply contains_spec. vm_compute. reflexivity.
  - destruct (upstream e (List.length (calls w))) as [data | err];
      [destruct (cleaned data) |]; reflexivity.
Qed.

(** *** The further properties on sample inputs *)

Lemma post_tweet_success_answer_witness :
  status (snd (run thread_env (post_tweet sample_iso JUndefined (tweet_body "A"))
                 (boot sample_clock))) = 200 /\
  prop (prop (body (snd (run thread_env
                           (post_tweet sample_iso JUndefined (tweet_body "A"))
                           (boot sample_clock)))) "rateLimit") "remaining"
    = JNum (17 - tweetCount
                   (fst (run thread_env
                           (post_tweet sample_iso JUndefined (tweet_body "A"))
                           (boot sample_clock)))).
Proof.
  destruct (post_tweet_success_answer sample_iso JUndefined thread_env
              (boot sample_clock) (tweet_body "A") (numbered 0))
    as (_ & Halone); [reflexivity | reflexivity | reflexivity | reflexivity |].
  destruct (Halone eq_refl) as (Hstatus & _ & _ & _ & Hremaining & _).
  split; [exact Hstatus | exact Hremaining].
Defined.

Lemma rate_limit_answer_is_stable_witness :
  snd (run still_env (rate_limit sample_iso)
         (fst (run still_env (rate_limit sample_iso) full_window)))
    = snd (run still_env (rate_limit sample_iso) full_window).
Proof.
  destruct (rate_limit_answer_is_stable sample_iso still_env full_window)
    as (_ & _ & _ & _ & Hagain).
  apply Hagain. vm_compute. discriminate.
Defined.

Lemma post_tweet_and_rate_limit_agree_witness :
  prop (prop (body (snd (run still_env
                           (post_tweet sample_iso JUndefined (tweet_body "A"))
                           (boot still_clock)))) "rateLimit") "remaining"
    = prop (body (snd (run still_env (rate_limit sample_iso)
                         (fst (run still_env
                                 (post_tweet sample_iso JUndefined (tweet_body "A"))
                                 (boot still_clock)))))) "remaining".
Proof.
  apply (post_tweet_and_rate_limit_agree sample_iso JUndefined still_env
           (boot still_clock) (tweet_body "A")).
  - reflexivity.
  - intros data Hup. injection Hup as <-. reflexivity.
  - reflexivity.
  - vm_compute. discriminate.
Defined.

Lemma expired_window_restores_quota_witness :
  tweetCount (fst (run late_env (post_tweet sample_iso JUndefined (tweet_body "A"))
                     full_window)) = 1.
Proof.
  apply (expired_window_restores_quota sample_iso JUndefined late_env full_window
           (tweet_body "A") (numbered 0)).
  - reflexivity.
  - vm_compute. reflexivity.
  - reflexivity.
  - reflexivity.
Defined.


Lemma post_thread_counts_what_it_published_witness :
  tweetCount (fst (run failing_env
                     (post_thread sample_iso JUndefined (thread_body abc))
                     (boot sample_clock))) <= 17.
Proof.
  destruct (post_thread_counts_what_it_published sample_iso JUndefined failing_env
              (boot sample_clock) (thread_body abc) (JStr (u "A"))
              [JStr (u "B"); JStr (u "C")])
    as (new & _ & _ & _ & _ & _ & Hceiling).
  - reflexivity.
  - reflexivity.
  - vm_compute. discriminate.
  - intros [| j] data Hup; [injection Hup as <-; reflexivity | discriminate Hup].
  - exact Hceiling.
Defined.

Lemma post_thread_success_answer_witness :
  status (snd (run thread_env (post_thread sample_iso JUndefined (thread_body abc))
                 (boot sample_clock))) = 200.
Proof.
  destruct (post_thread_success_answer sample_iso JUndefined thread_env
              (boot sample_clock) (thread_body abc) (JStr (u "A"))
              [JStr (u "B"); JStr (u "C")] numbered)
    as (Hstatus & _).
  - reflexivity.
  - reflexivity.
  - vm_compute. discriminate.
  - intros j _. split; reflexivity.
  - reflexivity.
  - exact Hstatus.
Defined.

Lemma count_is_number_of_resolved_publishes_witness :
  tweetCount (fst (serve sample_iso JUndefined still_env
                     [POST_post_tweet (tweet_body "A"); GET_rate_limit;
                      POST_post_thread (thread_body abc)]
                     (boot still_clock)))
    = published still_env 0
        (calls (fst (serve sample_iso JUndefined still_env
                       [POST_post_tweet (tweet_body "A"); GET_rate_limit;
                        POST_post_thread (thread_body abc)]
                       (boot still_clock)))).
Proof.
  apply (count_is_number_of_resolved_publishes sample_iso JUndefined still_env
           [POST_post_tweet (tweet_body "A"); GET_rate_limit;
            POST_post_thread (thread_body abc)]).
  intros n. vm_compute. discriminate.
Defined.

Lemma status_400_means_malformed_witness :
  run sample_env (handler sample_iso JUndefined (POST_post_tweet (JObj [])))
      full_window
    = (full_window,
       json 400 (JObj [("error", JStr (complaint (POST_post_tweet (JObj []))))])) /\
  status (snd (run sample_env
                 (handler sample_iso JUndefined (POST_post_tweet (tweet_body "A")))
                 full_window)) <> 400.
Proof.
  destruct (status_400_means_malformed sample_iso JUndefined sample_env
              (POST_post_tweet (JObj [])) full_window) as (Hbad & _).
  destruct (status_400_means_malformed sample_iso JUndefined sample_env
              (POST_post_tweet (tweet_body "A")) full_window) as (_ & Hgood).
  destruct (Hbad eq_refl eq_refl) as (_ & Hanswer).
  split.
  - exact Hanswer.
  - exact (Hgood eq_refl).
Defined.

Lemma generate_tweet_answer_witness :
  snd (run writer_env (generate_tweet cats) (boot sample_clock))
    = json 200 (JObj [("tweet", JStr (cleanTweet (u "Cats nap.")))]).
Proof.
  destruct (generate_tweet_answer writer_env (boot sample_clock) cats
              eq_refl eq_refl eq_refl eq_refl)
    as (_ & Hgood & _).
  apply (Hgood (answer (u "Cats nap."))); [reflexivity | reflexivity |].
  vm_compute. discriminate.
Defined.

Lemma generate_thread_all_or_nothing_witness :
  snd (run tired_env (generate_thread cats) (boot sample_clock))
    = json 500 (JObj [("error", JStr (u "Failed to generate thread content"))]) /\
  prop (body (snd (run tired_env (generate_thread cats) (boot sample_clock)))) "tweets"
    = JUndefined /\
  List.length (calls (fst (run tired_env (generate_thread cats) (boot sample_clock))))
    = 2%nat.
Proof.
  destruct (generate_thread_all_or_nothing tired_env (boot sample_clock) cats
              eq_refl eq_refl eq_refl eq_refl)
    as (_ & Hstops).
  apply (Hstops 1%nat).
  - vm_compute. lia.
  - intros j Hj. assert (j = O) by lia. subst j. exists (u "Cats nap.").
    exists (answer (u "Cats nap.")). split; [reflexivity |].
    split; [reflexivity | vm_compute; discriminate].
  - exact I.
Defined.

Lemma getPromptByLanguage_carries_topic_witness :
  Contains (u "cats") (getPromptByLanguage (JStr (u "cats")) (JStr (u "hindi"))).
Proof.
  apply (getPromptByLanguage_carries_topic (JStr (u "cats")) (JStr (u "hindi")));
    reflexivity.
Defined.


Lemma cleanTweet_returns_a_trimmed_piece_witness :
  is_space 104%N = false.
Proof.
  destruct (cleanTweet_returns_a_trimmed_piece (u " hi ")) as (_ & _ & Hhead & _).
  apply (Hhead 104%N [105%N]). reflexivity.
Defined.


Lemma limiter_only_gates_witness :
  status (snd (run thread_env (post_tweet sample_iso JUndefined (tweet_body "A"))
                 (boot sample_clock)))
    = status (snd (run thread_env (IndexJs.post_tweet JUndefined (tweet_body "A"))
                     (boot sample_clock))).
Proof.
  destruct (limiter_only_gates sample_iso JUndefined thread_env (boot sample_clock)
              (tweet_body "A") eq_refl)
    as (_ & _ & _ & Hsame).
  apply Hsame. reflexivity.
Defined.

Lemma earlier_generate_tweet_differs_in_prompt_only_witness :
  snd (run writer_env (IndexJs.generate_tweet cats) (boot sample_clock))
    = snd (run writer_env (generate_tweet cats) (boot sample_clock)).
Proof.
  apply (earlier_generate_tweet_differs_in_prompt_only writer_env
           (boot sample_clock) cats); reflexivity.
Defined.
